(** * BigModel: Monte-Carlo maximum-entropy estimation (maxentropy/bigmodel.py)

    A shallow embedding of the [BigModel] class of [src/maxentropy/bigmodel.py]
    and the properties of its estimators and of its stochastic-approximation
    solver.

    Conventions of the embedding.
    - Python floats are idealised as the real numbers [R] of the Standard
      Library; [np.exp], [math.log], [**] and [np.sqrt] are [exp], [ln],
      [Rpower] and [sqrt].  The results below are statements about that
      idealisation: they say which real-number expression each method
      computes, not how it is rounded.
    - A Python object whose attributes come and go ([hasattr], [del]) is a
      record of [option] fields: [None] is "the attribute is absent".
    - A method is a function from the object to an [outcome]: it returns a
      value and the mutated object, or raises an exception and leaves the
      object as mutated up to the raise.
    - Printing (all the [verbose] branches) has no effect on the object and is
      left out.
    - The module binds the names it imports ([types], [math], [np],
      [logsumexp], [BaseModel], [innerprod], [innerprodtranspose],
      [vec_feature_function]) and the two it defines ([BigModel],
      [feature_sampler]).  It calls [norm], [columnvariances] and
      [columnmeans] without binding them: each of these calls raises
      NameError. *)

From Stdlib Require Import String.
From Stdlib Require Import Reals Lra Lia ZArith Bool List.
Import ListNotations.

Local Open Scope R_scope.

(** ** 1-d and 2-d numpy arrays *)

Definition vec := list R.

(** A 2-d array of shape [(nrows, ncols)] with its rows.  Entry [(i, j)] is
    read with [entry]. *)
Record ndarray2 := mkArray2 {
  nrows : nat;
  ncols : nat;
  rows : list vec
}.

Definition entry (A : ndarray2) (i j : nat) : R := nth j (nth i (rows A) []) 0.

(** [A[:, j]] *)
Definition column (A : ndarray2) (j : nat) : vec :=
  map (fun i => entry A i j) (seq 0 (nrows A)).

(** [A[i, :]] *)
Definition row (A : ndarray2) (i : nat) : vec :=
  map (fun j => entry A i j) (seq 0 (ncols A)).

Definition zeros (m : nat) : vec := repeat 0 m.

Definition rsum (v : vec) : R := fold_right Rplus 0 v.

Fixpoint map2 (f : R -> R -> R) (u v : vec) : vec :=
  match u, v with
  | a :: u', b :: v' => f a b :: map2 f u' v'
  | _, _ => []
  end.

(** ** Exceptions and outcomes *)

Inductive exn :=
| ValueError (msg : string)
| AttributeError (msg : string)
| UnboundLocalError (name : string)
| NameError (name : string)
| TypeError (msg : string)
| IndexError
| ZeroDivisionError.

(** The two [ValueError]s of [resample], under the names the specification
    gives them. *)
Definition DimensionMismatchError : exn :=
  ValueError ("the sample feature generator returned"
              ++ " a feature matrix of incorrect dimensions."
              ++ " The number of rows must equal the number of model parameters.")%string.

Definition ShapeError : exn :=
  ValueError "Your sampler appears to be spitting out logprobs of the wrong dimensionality.".

(** numpy's own errors *)
Definition shapes_not_aligned : exn := ValueError "shapes not aligned".
Definition cannot_broadcast : exn := ValueError "operands could not be broadcast together".
Definition math_domain_error : exn := ValueError "math domain error".

(** Elementwise binary operation of two 1-d arrays, with numpy's broadcasting
    of a length-1 operand. *)
Definition broadcast (f : R -> R -> R) (u v : vec) : exn + vec :=
  if (length u =? length v)%nat then inr (map2 f u v)
  else match u, v with
       | [a], _ => inr (map (f a) v)
       | _, [b] => inr (map (fun x => f x b) u)
       | _, _ => inl cannot_broadcast
       end.

(** The in-place forms ([u += v]): the result must have the shape of [u]. *)
Definition broadcast_inplace (f : R -> R -> R) (u v : vec) : exn + vec :=
  if (length u =? length v)%nat then inr (map2 f u v)
  else match v with
       | [b] => inr (map (fun x => f x b) u)
       | _ => inl cannot_broadcast
       end.

(** The dot product of two vectors of one length. *)
Definition dotR (u v : vec) : R := rsum (map2 Rmult u v).

(** [np.dot] of two 1-d arrays *)
Definition dot (u v : vec) : exn + R :=
  if (length u =? length v)%nat then inr (dotR u v)
  else inl shapes_not_aligned.

(** [A.dot(w)] for a 2-d [A] and a 1-d [w]: one dot product per row. *)
Definition matvec (A : ndarray2) (w : vec) : exn + vec :=
  if (ncols A =? length w)%nat
  then inr (map (fun i => dotR (row A i) w) (seq 0 (nrows A)))
  else inl shapes_not_aligned.

(** Modelled from the spec: [innerprodtranspose] of [maxentutils] (imported by
    the module and defined in maxentutils.py), the inner-product primitive
    [A^T v]: entry [j] is the dot product of column [j] of [A] with [v]. *)
Definition innerprodtranspose (A : ndarray2) (v : vec) : exn + vec :=
  if (nrows A =? length v)%nat
  then inr (map (fun j => dotR (column A j) v) (seq 0 (ncols A)))
  else inl shapes_not_aligned.

(** The log of the sum of the exponentials. *)
Definition logsumexp (v : vec) : R := ln (rsum (map exp v)).

(** [scipy.misc.logsumexp] on a 1-d array: it starts with the maximum of the
    array, which numpy refuses to take of an empty one. *)
Definition scipy_logsumexp (v : vec) : exn + R :=
  match v with
  | [] => inl (ValueError "zero-size array to reduction operation maximum which has no identity")
  | _ => inr (logsumexp v)
  end.

(** [math.log] of a Python int. *)
Definition math_log (n : nat) : exn + R :=
  match n with
  | O => inl math_domain_error
  | _ => inr (ln (INR n))
  end.

(** ** The object *)

(** A point of the sample space: opaque to the model. *)
Inductive point := Point (id : nat).

(** What a sampler may hand back as log-probabilities: [resample] accepts
    only a 1-d ndarray of the right length. *)
Inductive pyobj :=
| ndarray1 (v : vec)
| ndarray2d (A : ndarray2)
| pylist (v : vec).

(** One item of the generator [feature_sampler]: [(F, log_q_xs, xs)]. *)
Record draw := mkDraw {
  draw_F : ndarray2;
  draw_logprobs : pyobj;
  draw_xs : list point
}.

(** A float that may be [float('inf')] or [nan]. *)
Inductive pyfloat :=
| Finite (r : R)
| PosInf
| NaN.

Definition Rltb (x y : R) : bool := if Rlt_dec x y then true else false.

(** [a < b] on Python floats. *)
Definition float_lt (a b : pyfloat) : bool :=
  match a, b with
  | Finite x, Finite y => Rltb x y
  | Finite _, PosInf => true
  | _, _ => false
  end.

(** A dict with int keys. *)
Definition dict (V : Type) := list (Z * V).

Definition dict_set {V} (k : Z) (v : V) (d : dict V) : dict V :=
  (k, v) :: filter (fun p => negb (fst p =? k)%Z) d.

Fixpoint dict_get {V} (k : Z) (d : dict V) : option V :=
  match d with
  | [] => None
  | (k', v) :: d' => if (k' =? k)%Z then Some v else dict_get k d'
  end.

(** The attributes set in [__init__] and by the user that steer the
    estimators and the stochastic approximation. *)
Record settings := mkSettings {
  matrixtrials : Z;
  staticsample : bool;
  deylon : bool;
  stepdecreaserate : option R;      (* [None] is Python's [None] *)
  exacttest : bool;
  ruppertaverage : bool;
  andradottir : bool;
  a_0_hold : Z;
  a_0 : option R;                   (* absent until the user sets it *)
  maxiter : Z;
  paramslogcounter : option Z       (* absent unless logging was begun *)
}.

(** The current internal sample. *)
Record samplerec := mkSample {
  sampleF : option ndarray2;
  samplelogprobs : option pyobj;
  sample : option (list point)
}.

(** The interim results that depend on the parameters and the sample. *)
Record cache := mkCache {
  logv : option vec;
  logZapprox : option R;
  mu : option vec;
  varE : option vec
}.

(** What [settestsamples] registers. *)
Record testsets := mkTestsets {
  externalFs : list ndarray2;
  externallogprobs : list vec;
  externalpriorlogprobs : option (list vec)
}.

(** The attributes of external testing. *)
Record testing := mkTesting {
  external : option nat;             (* [None]: use the internal sample *)
  sets : option testsets;            (* absent before [settestsamples] *)
  external_duals : dict (list R);
  external_gradnorms : dict (list R);
  bestdual : pyfloat;
  bestparams : option vec;
  iters : Z
}.

Record BigModel := mkBigModel {
  params : option vec;
  K : vec;
  priorlogprobs : option vec;
  samplegen : nat -> draw;           (* the generator: its n-th item *)
  drawn : nat;                       (* how many items were taken from it *)
  smp : samplerec;
  cch : cache;
  cfg : settings;
  tst : testing;
  nosignswitch : option (list Z);
  SAerror : option (list R)
}.

(** *** Attribute assignment *)

Definition set_params (v : option vec) (s : BigModel) : BigModel :=
  mkBigModel v (K s) (priorlogprobs s) (samplegen s) (drawn s) (smp s) (cch s)
             (cfg s) (tst s) (nosignswitch s) (SAerror s).

Definition set_drawn (n : nat) (s : BigModel) : BigModel :=
  mkBigModel (params s) (K s) (priorlogprobs s) (samplegen s) n (smp s) (cch s)
             (cfg s) (tst s) (nosignswitch s) (SAerror s).

Definition set_smp (x : samplerec) (s : BigModel) : BigModel :=
  mkBigModel (params s) (K s) (priorlogprobs s) (samplegen s) (drawn s) x (cch s)
             (cfg s) (tst s) (nosignswitch s) (SAerror s).

Definition set_cch (c : cache) (s : BigModel) : BigModel :=
  mkBigModel (params s) (K s) (priorlogprobs s) (samplegen s) (drawn s) (smp s) c
             (cfg s) (tst s) (nosignswitch s) (SAerror s).

Definition set_cfg (c : settings) (s : BigModel) : BigModel :=
  mkBigModel (params s) (K s) (priorlogprobs s) (samplegen s) (drawn s) (smp s) (cch s)
             c (tst s) (nosignswitch s) (SAerror s).

Definition set_tst (t : testing) (s : BigModel) : BigModel :=
  mkBigModel (params s) (K s) (priorlogprobs s) (samplegen s) (drawn s) (smp s) (cch s)
             (cfg s) t (nosignswitch s) (SAerror s).

Definition set_nosignswitch (l : option (list Z)) (s : BigModel) : BigModel :=
  mkBigModel (params s) (K s) (priorlogprobs s) (samplegen s) (drawn s) (smp s) (cch s)
             (cfg s) (tst s) l (SAerror s).

Definition set_SAerror (l : option (list R)) (s : BigModel) : BigModel :=
  mkBigModel (params s) (K s) (priorlogprobs s) (samplegen s) (drawn s) (smp s) (cch s)
             (cfg s) (tst s) (nosignswitch s) l.

Definition set_logv (v : option vec) (s : BigModel) : BigModel :=
  set_cch (mkCache v (logZapprox (cch s)) (mu (cch s)) (varE (cch s))) s.

Definition set_logZapprox (z : option R) (s : BigModel) : BigModel :=
  set_cch (mkCache (logv (cch s)) z (mu (cch s)) (varE (cch s))) s.

Definition set_mu (v : option vec) (s : BigModel) : BigModel :=
  set_cch (mkCache (logv (cch s)) (logZapprox (cch s)) v (varE (cch s))) s.

Definition set_varE (v : option vec) (s : BigModel) : BigModel :=
  set_cch (mkCache (logv (cch s)) (logZapprox (cch s)) (mu (cch s)) v) s.

Definition set_matrixtrials (t : Z) (s : BigModel) : BigModel :=
  let c := cfg s in
  set_cfg (mkSettings t (staticsample c) (deylon c) (stepdecreaserate c) (exacttest c)
                      (ruppertaverage c) (andradottir c) (a_0_hold c) (a_0 c) (maxiter c)
                      (paramslogcounter c)) s.

Definition set_staticsample (b : bool) (s : BigModel) : BigModel :=
  let c := cfg s in
  set_cfg (mkSettings (matrixtrials c) b (deylon c) (stepdecreaserate c) (exacttest c)
                      (ruppertaverage c) (andradottir c) (a_0_hold c) (a_0 c) (maxiter c)
                      (paramslogcounter c)) s.

Definition set_external (e : option nat) (s : BigModel) : BigModel :=
  let t := tst s in
  set_tst (mkTesting e (sets t) (external_duals t) (external_gradnorms t) (bestdual t)
                     (bestparams t) (iters t)) s.

Definition set_external_duals (d : dict (list R)) (s : BigModel) : BigModel :=
  let t := tst s in
  set_tst (mkTesting (external t) (sets t) d (external_gradnorms t) (bestdual t)
                     (bestparams t) (iters t)) s.

Definition set_external_gradnorms (d : dict (list R)) (s : BigModel) : BigModel :=
  let t := tst s in
  set_tst (mkTesting (external t) (sets t) (external_duals t) d (bestdual t)
                     (bestparams t) (iters t)) s.

Definition set_bestdual (b : pyfloat) (s : BigModel) : BigModel :=
  let t := tst s in
  set_tst (mkTesting (external t) (sets t) (external_duals t) (external_gradnorms t) b
                     (bestparams t) (iters t)) s.

Definition set_bestparams (p : option vec) (s : BigModel) : BigModel :=
  let t := tst s in
  set_tst (mkTesting (external t) (sets t) (external_duals t) (external_gradnorms t)
                     (bestdual t) p (iters t)) s.

(** *** Methods as state transformers that may raise *)

(** [Unmodelled] marks the runs that leave the model: arithmetic on a
    log-probability object that is not one-dimensional (only a sampler
    rejected by [resample] can leave one behind), the division of an array by
    a zero count (numpy's inf and nan), and a power of a decay index that is
    not positive (the code never computes one). *)
Inductive outcome (A : Type) :=
| Returns (a : A) (s : BigModel)
| Raises (e : exn) (s : BigModel)
| Unmodelled.

Arguments Returns {A} a s.
Arguments Raises {A} e s.
Arguments Unmodelled {A}.

Definition M (A : Type) := BigModel -> outcome A.

Definition ret {A} (a : A) : M A := fun s => Returns a s.

Definition bind {A B} (c : M A) (k : A -> M B) : M B :=
  fun s => match c s with
           | Returns a s' => k a s'
           | Raises e s' => Raises e s'
           | Unmodelled => Unmodelled
           end.

Definition raise {A} (e : exn) : M A := fun s => Raises e s.

(** Read an attribute, write the object. *)
Definition gets {A} (f : BigModel -> A) : M A := fun s => Returns (f s) s.
Definition modify (f : BigModel -> BigModel) : M unit := fun s => Returns tt (f s).

(** Lift a numpy operation that may fail. *)
Definition lift {A} (r : exn + A) : M A :=
  match r with
  | inr a => ret a
  | inl e => raise e
  end.

(** Read an attribute that may be absent: [AttributeError] if it is. *)
Definition attr {A} (name : string) (f : BigModel -> option A) : M A :=
  fun s => match f s with
           | Some a => Returns a s
           | None => Raises (AttributeError name) s
           end.

Declare Scope py_scope.
Delimit Scope py_scope with py.
Notation "x <- c ;; k" := (bind c (fun x => k))
  (at level 61, c at next level, right associativity) : py_scope.
Notation "c ;;; k" := (bind c (fun _ => k))
  (at level 61, right associativity) : py_scope.
Local Open Scope py_scope.

(** ** Names the module does not bind *)

(** A call [f(e)] of a global name [f] that the module neither imports nor
    defines: Python looks [f] up before it evaluates the argument [e], so the
    call raises NameError and [e] is not evaluated. *)
Definition unbound {A B} (name : string) (arg : M A) : M B :=
  raise (NameError name).

(** [norm(e)], [columnvariances(e)], [columnmeans(e)]: no import of
    bigmodel.py (lines 1-8) and no definition in it binds these names. *)
Definition norm {A} (arg : M A) : M R := unbound "norm" arg.
Definition columnvariances {A} (arg : M A) : M vec := unbound "columnvariances" arg.
Definition columnmeans {A} (arg : M A) : M vec := unbound "columnmeans" arg.

(** ** The sample and the caches *)

(** Modelled from the spec: [clearcache] of [BaseModel] (basemodel.py),
    "clears the derived cache": logv, logZ, mu and varE. *)
Definition clearcache : M unit :=
  modify (set_cch (mkCache None None None None)).

(** Modelled from the spec: [setparams] of [BaseModel] (basemodel.py), the
    explicit "set parameters" operation "that also invalidates all derived
    caches". *)
Definition setparams (p : vec) : M unit :=
  modify (set_params (Some p)) ;;;
  clearcache.

(** [resample]: take the next item of the generator as the current sample,
    check its dimensions against the parameters, clear the caches. *)
Definition resample : M unit :=
  (* del self.sampleF, self.samplelogprobs, self.sample *)
  modify (set_smp (mkSample None None None)) ;;;
  (* output = next(self.samplegen) *)
  d <- gets (fun s => samplegen s (drawn s)) ;;
  modify (fun s => set_drawn (S (drawn s)) s) ;;;
  modify (set_smp (mkSample (Some (draw_F d)) (Some (draw_logprobs d)) (Some (draw_xs d)))) ;;;
  let m := nrows (draw_F d) in
  let n := ncols (draw_F d) in
  p <- gets params ;;
  match p with
  | None => modify (set_params (Some (zeros m)))
  | Some theta =>
      if (m =? length theta)%nat then ret tt else raise DimensionMismatchError
  end ;;;
  match draw_logprobs d with
  | ndarray1 lp => if (length lp =? n)%nat then ret tt else raise ShapeError
  | _ => raise ShapeError
  end ;;;
  clearcache.

(** The 1-d values of a log-probability object; arithmetic on a 2-d one is
    outside the model. *)
Definition as_vec (o : pyobj) : M vec :=
  match o with
  | ndarray1 v => ret v
  | pylist v => ret v
  | ndarray2d _ => fun _ => Unmodelled
  end.

(** [seq[i]] on a Python list *)
Definition getitem {A} (l : list A) (i : nat) : M A :=
  match nth_error l i with
  | Some a => ret a
  | None => raise IndexError
  end.

(** [_logv]: the log importance weights of the active sample, cached in
    [self.logv]. *)
Definition _logv : M vec :=
  c <- gets (fun s => logv (cch s)) ;;
  match c with
  | Some v => ret v
  | None =>
      ext <- gets (fun s => external (tst s)) ;;
      v <- match ext with
           | None =>
               F <- attr "sampleF" (fun s => sampleF (smp s)) ;;
               theta <- attr "params" params ;;
               paramsdotF <- lift (innerprodtranspose F theta) ;;
               lp <- attr "samplelogprobs" (fun s => samplelogprobs (smp s)) ;;
               lp <- as_vec lp ;;
               v <- lift (broadcast Rminus paramsdotF lp) ;;
               prior <- gets priorlogprobs ;;
               match prior with
               | Some p0 => lift (broadcast_inplace Rplus v p0)
               | None => ret v
               end
           | Some e =>
               ts <- attr "externalFs" (fun s => sets (tst s)) ;;
               F <- getitem (externalFs ts) e ;;
               theta <- attr "params" params ;;
               paramsdotF <- lift (innerprodtranspose F theta) ;;
               lp <- getitem (externallogprobs ts) e ;;
               v <- lift (broadcast Rminus paramsdotF lp) ;;
               match externalpriorlogprobs ts with
               | Some ps => p0 <- getitem ps e ;; lift (broadcast_inplace Rplus v p0)
               | None => ret v
               end
           end ;;
      modify (set_logv (Some v)) ;;;
      ret v
  end.

(** [lognormconst]: the estimate of log Z from the current weights, cached in
    [self.logZapprox]. *)
Definition lognormconst : M R :=
  c <- gets (fun s => logZapprox (cch s)) ;;
  match c with
  | Some z => ret z
  | None =>
      v <- _logv ;;
      let n := length v in
      lse <- lift (scipy_logsumexp v) ;;
      logn <- lift (math_log n) ;;
      let z := lse - logn in
      modify (set_logZapprox (Some z)) ;;;
      ret z
  end.

(** ** The expectation estimator *)

(** [a * v] for a scalar [a] and an array [v] *)
Definition scale (a : R) (v : vec) : vec := map (fun x => a * x) v.

(** The mean of a list of numbers. *)
Definition mean (l : list R) : R := rsum l / INR (length l).

(** [np.array(mus)] for a list of [T] vectors of length [m]. *)
Definition stack (mus : list vec) : ndarray2 :=
  mkArray2 (length mus) (length (hd [] mus)) mus.

(** [averages /= n]: dividing by [n = 0] gives inf and nan, which the reals
    do not have. *)
Definition div_by_len (v : vec) (n : nat) : M vec :=
  match n with
  | O => fun _ => Unmodelled
  | _ => ret (map (fun x => x / INR n) v)
  end.

(** The feature matrix of the active sample, as [estimate] reads it. *)
Definition activeF : M ndarray2 :=
  ext <- gets (fun s => external (tst s)) ;;
  match ext with
  | None => attr "sampleF" (fun s => sampleF (smp s))
  | Some e =>
      ts <- attr "externalFs" (fun s => sets (tst s)) ;;
      getitem (externalFs ts) e
  end.

(** One pass of the body of the [for trial in range(self.matrixtrials)] loop
    of [estimate]: it returns the pair [(averages, logZ)] that the body
    appends to [mus] and [logZs]. *)
Definition trial : M (vec * R) :=
  c <- gets cfg ;;
  (if negb (staticsample c) || (matrixtrials c >? 1)%Z then resample else ret tt) ;;;
  v <- _logv ;;
  let n := length v in
  logZ <- lognormconst ;;
  let logu := map (fun x => x - logZ) v in
  F <- activeF ;;
  averages <- lift (matvec F (map exp logu)) ;;
  averages <- div_by_len averages n ;;
  ret (averages, logZ).

(** The loop: [t] more passes, appending to [mus] and [logZs]. *)
Fixpoint trials (t : nat) (mus : list vec) (logZs : list R) : M (list vec * list R) :=
  match t with
  | O => ret (mus, logZs)
  | S t' =>
      r <- trial ;;
      trials t' (mus ++ [fst r]) (logZs ++ [snd r])
  end.

(** What [estimate] stores once the trials are done. *)
Definition aggregate (mus : list vec) (logZs : list R) : M unit :=
  let ttrials := length mus in
  if (ttrials =? 1)%nat then
    modify (set_mu (Some (hd [] mus))) ;;;
    modify (set_logZapprox (Some (hd 0 logZs))) ;;;
    (* del self.varE, ignoring AttributeError *)
    modify (set_varE None)
  else
    lse <- lift (scipy_logsumexp logZs) ;;
    logT <- lift (math_log ttrials) ;;
    modify (set_logZapprox (Some (lse - logT))) ;;;
    (* stdevlogZ = np.array(logZs).std(): a local that nothing reads *)
    let mus := stack mus in
    v <- columnvariances (ret mus) ;;
    modify (set_varE (Some v)) ;;;
    m <- columnmeans (ret mus) ;;
    modify (set_mu (Some m)).

(** [estimate] *)
Definition estimate : M unit :=
  T <- gets (fun s => matrixtrials (cfg s)) ;;
  r <- trials (Z.to_nat T) [] [] ;;
  aggregate (fst r) (snd r).

(** [expectations] *)
Definition expectations : M vec :=
  c <- gets (fun s => mu (cch s)) ;;
  match c with
  | Some m => ret m
  | None => estimate ;;; attr "mu" (fun s => mu (cch s))
  end.

(** ** The density *)

(** The argument [fx] of [logpdf] is a 1-d or a 2-d array; its result and the
    optional [log_prior_x] are a number or a 1-d array. *)
Inductive features :=
| fx1 (fx : vec)
| fx2 (fx : ndarray2).

Inductive value :=
| Scalar (r : R)
| Array (v : vec).

(** [a += b] *)
Definition iadd (a b : value) : exn + value :=
  match a, b with
  | Scalar x, Scalar y => inr (Scalar (x + y))
  | Scalar x, Array v => inr (Array (map (fun y => x + y) v))
  | Array u, Scalar y => inr (Array (map (fun x => x + y) u))
  | Array u, Array v =>
      match broadcast_inplace Rplus u v with
      | inr w => inr (Array w)
      | inl e => inl e
      end
  end.

(** [logpdf] *)
Definition logpdf (fx : features) (log_prior_x : option value) : M value :=
  log_Z_est <- lognormconst ;;
  r <- match fx with
       | fx1 v =>
           theta <- attr "params" params ;;
           d <- lift (dot theta v) ;;
           ret (Scalar (d - log_Z_est))
       | fx2 A =>
           theta <- attr "params" params ;;
           w <- lift (innerprodtranspose A theta) ;;
           ret (Array (map (fun x => x - log_Z_est) w))
       end ;;
  match log_prior_x with
  | Some p0 => lift (iadd r p0)
  | None => ret r
  end.

(** ** Stochastic approximation *)

(** The local variables of [stochapprox]; [n], [y_k] and [y_kminus1] are
    unbound until their first assignment. *)
Record locals := mkLocals {
  k : Z;
  a_k : R;
  avgparams : vec;
  n : option Z;
  y_k : option vec;
  y_kminus1 : option vec
}.

(** Read a local variable that may be unbound. *)
Definition local {A} (name : string) (x : option A) : M A :=
  match x with
  | Some a => ret a
  | None => raise (UnboundLocalError name)
  end.

(** [math.log(n)] and [n ** p] for the decay index, a positive int. *)
Definition math_logZ (n : Z) : exn + R :=
  if (0 <? n)%Z then inr (ln (IZR n)) else inl math_domain_error.

Definition int_pow_float (n : Z) (p : R) : M R :=
  if (0 <? n)%Z then ret (Rpower (IZR n) p) else fun _ => Unmodelled.

(** [self.nosignswitch.append(k)], creating the list when it is absent. *)
Definition record_nosignswitch (k : Z) : M unit :=
  modify (fun s => match nosignswitch s with
                   | Some l => set_nosignswitch (Some (l ++ [k])) s
                   | None => set_nosignswitch (Some [k]) s
                   end).

(** The decay index [n] of iteration [k] (already incremented), for
    [k > self.a_0_hold]. *)
Definition decay_index (k : Z) (l : locals) : M (option Z) :=
  c <- gets cfg ;;
  if negb (deylon c) then ret (Some (k - a_0_hold c)%Z)
  else if (k <=? 2 + a_0_hold c)%Z then ret (Some (k - a_0_hold c)%Z)
  else
    yk <- local "y_k" (y_k l) ;;
    ykm <- local "y_kminus1" (y_kminus1 l) ;;
    d <- lift (dot yk ykm) ;;
    if Rltb d 0 then
      n0 <- local "n" (n l) ;;
      ret (Some (n0 + 1)%Z)
    else
      record_nosignswitch k ;;;
      ret (n l).

(** The step size computed from the decay index. *)
Definition step_size (n : option Z) : M R :=
  c <- gets cfg ;;
  if ruppertaverage c then
    match stepdecreaserate c with
    | None =>
        a0 <- attr "a_0" (fun s => a_0 (cfg s)) ;;
        n <- local "n" n ;;
        logn <- lift (math_logZ n) ;;
        ret (1 * a0 * logn / IZR n)
    | Some p =>
        a0 <- attr "a_0" (fun s => a_0 (cfg s)) ;;
        n <- local "n" n ;;
        np <- int_pow_float n p ;;
        ret (1 * a0 / np)
    end
  else
    a0 <- attr "a_0" (fun s => a_0 (cfg s)) ;;
    n <- local "n" n ;;
    match stepdecreaserate c with
    | None => raise (TypeError "unsupported operand type(s) for **")
    | Some p =>
        np <- int_pow_float n p ;;
        ret (1 * a0 / np)
    end.

(** [self.mu - K] *)
Definition mu_minus (K : vec) : M vec :=
  m <- attr "mu" (fun s => mu (cch s)) ;;
  lift (broadcast Rminus m K).

(** [y / d] for an array [y] and a number [d] *)
Definition divide (y : vec) (d : R) : vec := map (fun x => x / d) y.

(** The gradient estimate of one iteration; it returns the new [y_k] and
    [y_kminus1]. *)
Definition gradient_estimate (K : vec) (l : locals) : M (option vec * option vec) :=
  modify (set_matrixtrials 1%Z) ;;;
  modify (set_staticsample false) ;;;
  c <- gets cfg ;;
  if andradottir c then
    estimate ;;;
    y_k_1 <- mu_minus K ;;
    estimate ;;;
    y_k_2 <- mu_minus K ;;
    (* y_k = y_k_1 / max(1.0, norm(y_k_2)) + y_k_2 / max(1.0, norm(y_k_1)) *)
    n2 <- norm (ret y_k_2) ;;
    n1 <- norm (ret y_k_1) ;;
    y <- lift (broadcast Rplus (divide y_k_1 (Rmax 1 n2)) (divide y_k_2 (Rmax 1 n1))) ;;
    ret (Some y, y_kminus1 l)
  else
    (if negb (staticsample c) then estimate else ret tt) ;;;
    (* try: y_kminus1 = y_k / except NameError: pass *)
    let ykm := match y_k l with Some y => Some y | None => y_kminus1 l end in
    y <- mu_minus K ;;
    ret (Some y, ykm).

(** The raw update [self.params - a_k*y_k]. *)
Definition raw_update (a_k : R) (y_k : vec) : M vec :=
  theta <- attr "params" params ;;
  lift (broadcast Rminus theta (scale a_k y_k)).

(** [(k-1.0)/k*avgparams + 1.0/k * newparams] *)
Definition running_average (k : Z) (avgparams newparams : vec) : M vec :=
  if (k =? 0)%Z then raise ZeroDivisionError
  else lift (broadcast Rplus (scale ((IZR k - 1) / IZR k) avgparams)
                             (scale (1 / IZR k) newparams)).

(** The head of a pass (lines 530-568): the decay index and the step size
    of iteration [k] (already incremented); both are left as they were while
    [k <= self.a_0_hold]. *)
Definition sa_step_size (k : Z) (l : locals) : M (option Z * R) :=
  c <- gets cfg ;;
  if (k >? a_0_hold c)%Z then
    n' <- decay_index k l ;;
    a <- step_size n' ;;
    ret (n', a)
  else ret (n l, a_k l).

(** One pass of the body of [while True], up to the test [k >= self.maxiter].
    The pass stops at [norm_y_k = norm(y_k)] (line 590), where [norm] is not
    bound; the update of the parameters that follows it is never reached. *)
Definition sa_iteration (K : vec) (l : locals) : M locals :=
  let k' := (k l + 1)%Z in
  na <- sa_step_size k' l ;;
  let n' := fst na in
  let a_k' := snd na in
  ys <- gradient_estimate K l ;;
  norm_y_k <- norm (local "y_k" (fst ys)) ;;
  c <- gets cfg ;;
  if ruppertaverage c then
    yk <- local "y_k" (fst ys) ;;
    newparams <- raw_update a_k' yk ;;
    avg <- running_average k' (avgparams l) newparams ;;
    setparams avg ;;;
    ret (mkLocals k' a_k' avg n' (fst ys) (snd ys))
  else
    yk <- local "y_k" (fst ys) ;;
    newparams <- raw_update a_k' yk ;;
    setparams newparams ;;;
    ret (mkLocals k' a_k' (avgparams l) n' (fst ys) (snd ys)).

(** The loop [while True], with [fuel] further passes allowed after the
    first; the body runs at least once and the only [break] is the test
    [k >= self.maxiter] at the end of a pass. *)
Fixpoint sa_loop (fuel : nat) (K : vec) (l : locals) : M locals :=
  l' <- sa_iteration K l ;;
  mi <- gets (fun s => maxiter (cfg s)) ;;
  if (k l' >=? mi)%Z then ret l'
  else match fuel with
       | O => ret l'
       | S fuel' => sa_loop fuel' K l'
       end.

(** The locals at the head of the loop. *)
Definition sa_init : M locals :=
  c <- gets cfg ;;
  let k0 := match paramslogcounter c with Some k0 => k0 | None => 0%Z end in
  a0 <- attr "first define the initial step size a_0" (fun s => a_0 (cfg s)) ;;
  avg <- attr "params" params ;;
  (if exacttest c then modify (set_SAerror (Some [])) else ret tt) ;;;
  ret (mkLocals k0 a0 avg None None None).

(** [stochapprox(K)].  Were the loop left by its [break], that would be
    after [maxiter - k0] passes (one pass when that is not positive), which
    is the fuel given here.  The Python method has no [return]; the model
    hands back the locals at the exit of the loop. *)
Definition stochapprox (K : vec) : M locals :=
  l <- sa_init ;;
  mi <- gets (fun s => maxiter (cfg s)) ;;
  sa_loop (Z.to_nat (mi - k l - 1)) K l.

(** ** Testing on external samples *)

(** Modelled from the spec: [dual] of [BaseModel] (basemodel.py) with the
    penalty and the test ignored, "an unregularized dual value
    D_e = logZ_e(theta) - theta.K". *)
Definition dual : M R :=
  z <- lognormconst ;;
  theta <- attr "params" params ;;
  target <- gets K ;;
  d <- lift (dot theta target) ;;
  ret (z - d).

(** Modelled from the spec: [grad] of [BaseModel] (basemodel.py) with the
    penalty ignored, the gradient [mu_e(theta) - K] whose norm the spec
    records. *)
Definition grad : M vec :=
  m <- expectations ;;
  target <- gets K ;;
  lift (broadcast Rminus m target).

(** The loop [for e in range(len(self.externalFs))] of [test]. *)
Fixpoint test_loop (es : list nat) (dualapprox gradnorms : list R) : M (list R * list R) :=
  match es with
  | [] => ret (dualapprox, gradnorms)
  | e :: es' =>
      modify (set_external (Some e)) ;;;
      clearcache ;;;
      d <- dual ;;
      (* gradnorms.append(norm(self.grad(ignorepenalty=True))) *)
      g <- norm grad ;;
      test_loop es' (dualapprox ++ [d]) (gradnorms ++ [g])
  end.

(** [np.average] of a list of floats: [nan] on the empty list. *)
Definition average (l : list R) : pyfloat :=
  match l with
  | [] => NaN
  | _ => Finite (mean l)
  end.

(** The first part of [test]: evaluate the dual and the gradient norm on each
    external sample, record them under the iteration count, and return the
    mean dual. *)
Definition test_measure : M pyfloat :=
  ts <- attr "externalFs" (fun s => sets (tst s)) ;;
  r <- test_loop (seq 0 (length (externalFs ts))) [] [] ;;
  modify (set_external None) ;;;
  clearcache ;;;
  let meandual := average (fst r) in
  modify (fun s => set_external_duals (dict_set (iters (tst s)) (fst r) (external_duals (tst s))) s) ;;;
  modify (fun s => set_external_gradnorms (dict_set (iters (tst s)) (snd r) (external_gradnorms (tst s))) s) ;;;
  ret meandual.

(** The last part of [test]: keep the parameters with the lowest mean dual. *)
Definition test_record (meandual : pyfloat) : M unit :=
  best <- gets (fun s => bestdual (tst s)) ;;
  if float_lt meandual best then
    modify (set_bestdual meandual) ;;;
    theta <- attr "params" params ;;
    modify (set_bestparams (Some theta))
  else ret tt.

(** [test] *)
Definition test : M unit :=
  meandual <- test_measure ;;
  test_record meandual.

(** * Notions used in the statements *)

(** ** What a method leaves alone *)

(** [c] relates every object it starts from to the object it returns with. *)
Definition preserves {A} (R : BigModel -> BigModel -> Prop) (c : M A) : Prop :=
  forall s a s', c s = Returns a s' -> R s s'.

(** What the estimators leave alone: they touch the current sample, the
    position in the generator and the caches, and set the parameters only
    when these were unset. *)
Definition estimator_frame (s s' : BigModel) : Prop :=
  (forall theta, params s = Some theta -> params s' = Some theta) /\
  K s' = K s /\ priorlogprobs s' = priorlogprobs s /\ samplegen s' = samplegen s /\
  cfg s' = cfg s /\ tst s' = tst s /\
  nosignswitch s' = nosignswitch s /\ SAerror s' = SAerror s.

(** Only the caches differ between [s] and [s']. *)
Definition cache_frame (s s' : BigModel) : Prop := s' = set_cch (cch s') s.

(** What testing on the external samples leaves alone, up to the update of the
    best-so-far record: the parameters, the registered sets, the iteration
    count and the record itself. *)
Definition tester_frame (s s' : BigModel) : Prop :=
  (forall theta, params s = Some theta -> params s' = Some theta) /\
  K s' = K s /\ cfg s' = cfg s /\
  sets (tst s') = sets (tst s) /\ iters (tst s') = iters (tst s) /\
  bestdual (tst s') = bestdual (tst s) /\ bestparams (tst s') = bestparams (tst s).

(** ** The sample *)

(** A log-probability object that [resample] accepts for a feature matrix
    with [n] columns: a one-dimensional ndarray of length [n]. *)
Definition valid_logprobs (lp : pyobj) (n : nat) : Prop :=
  exists v, lp = ndarray1 v /\ length v = n.

(** The object when [resample] has stored the new sample and is about to
    check it. *)
Definition with_new_sample (s : BigModel) : BigModel :=
  let d := samplegen s (drawn s) in
  set_smp (mkSample (Some (draw_F d)) (Some (draw_logprobs d)) (Some (draw_xs d)))
    (set_drawn (S (drawn s)) (set_smp (mkSample None None None) s)).

(** The checks of [resample] on the item [d] just stored, and the clearing of
    the caches. *)
Definition validate (d : draw) : M unit :=
  p <- gets params ;;
  match p with
  | None => modify (set_params (Some (zeros (nrows (draw_F d)))))
  | Some theta =>
      if (nrows (draw_F d) =? length theta)%nat then ret tt
      else raise DimensionMismatchError
  end ;;;
  match draw_logprobs d with
  | ndarray1 lp => if (length lp =? ncols (draw_F d))%nat then ret tt else raise ShapeError
  | _ => raise ShapeError
  end ;;;
  clearcache.

(** An item of the generator that [resample] accepts for [m] parameters, with
    at least one sample point. *)
Definition good_draw (m : nat) (d : draw) : Prop :=
  nrows (draw_F d) = m /\
  valid_logprobs (draw_logprobs d) (ncols (draw_F d)) /\
  (0 < ncols (draw_F d))%nat.

(** An object ready for estimation on its internal sample: [m] parameters,
    no external selector, no prior, and a generator of good items. *)
Definition ready (m : nat) (s : BigModel) : Prop :=
  (exists theta, params s = Some theta /\ length theta = m) /\
  external (tst s) = None /\ priorlogprobs s = None /\
  forall i, good_draw m (samplegen s i).

(** ** The importance weights *)

(** The active sample: the internal one when [self.external] is [None], else
    the external record at index [e]; with its feature matrix, its
    log-auxiliary-density and the prior log-density supplied for it, if
    any. *)
Definition active_sample (s : BigModel) : option (ndarray2 * vec * option vec) :=
  match external (tst s) with
  | None =>
      match sampleF (smp s), samplelogprobs (smp s) with
      | Some F, Some (ndarray1 logaux) => Some (F, logaux, priorlogprobs s)
      | _, _ => None
      end
  | Some e =>
      match sets (tst s) with
      | Some ts =>
          match nth_error (externalFs ts) e, nth_error (externallogprobs ts) e with
          | Some F, Some logaux =>
              match externalpriorlogprobs ts with
              | None => Some (F, logaux, None)
              | Some ps =>
                  match nth_error ps e with
                  | Some p0 => Some (F, logaux, Some p0)
                  | None => None
                  end
              end
          | _, _ => None
          end
      | None => None
      end
  end.

(** The j-th weight as the specification writes it:
    [theta.F[:,j] - logaux_j (+ logprior_j)]. *)
Definition logv_entry (theta : vec) (F : ndarray2) (logaux : vec) (prior : option vec)
    (j : nat) : R :=
  match prior with
  | None => dotR theta (column F j) - nth j logaux 0
  | Some p0 => dotR theta (column F j) - nth j logaux 0 + nth j p0 0
  end.

Definition well_shaped (theta : vec) (F : ndarray2) (logaux : vec) (prior : option vec) : Prop :=
  length theta = nrows F /\ length logaux = ncols F /\
  match prior with Some p0 => length p0 = ncols F | None => True end.

(** ** The trials of the expectation estimator *)

(** The self-normalised importance-sampling estimate of one trial,
    [F . exp(logv - logZ) / n]: entry [i] is
    [(sum_j F[i,j] * exp(logv_j - logZ)) / n] with [n = len(logv)]. *)
Definition weighted_average (F : ndarray2) (logv : vec) (logZ : R) : vec :=
  map (fun i => dotR (row F i) (map (fun x => exp (x - logZ)) logv) / INR (length logv))
      (seq 0 (nrows F)).

(** The result [(mu_t, logZ_t)] of a trial against the object [s] the trial
    leaves: [logZ_t] and the weights [logv] are the cached ones, and [mu_t]
    is the weighted average of the active feature matrix. *)
Definition trial_result (s : BigModel) (mu_t : vec) (logZ_t : R) : Prop :=
  exists F v,
    activeF s = Returns F s /\ logv (cch s) = Some v /\
    logZapprox (cch s) = Some logZ_t /\
    mu_t = weighted_average F v logZ_t.

(** Successive returning trials, each starting from the object the previous
    one left, with their results. *)
Inductive trial_chain : BigModel -> list (vec * R) -> BigModel -> Prop :=
| chain_nil s : trial_chain s [] s
| chain_cons s r s1 rs s2 :
    trial s = Returns r s1 -> trial_result s1 (fst r) (snd r) ->
    trial_chain s1 rs s2 -> trial_chain s (r :: rs) s2.

(** ** Testing on the external samples *)

(** The mean dual that the last [test()] recorded under the current
    iteration count: [np.average(self.external_duals[self.iters])]. *)
Definition recorded_meandual (s : BigModel) : pyfloat :=
  match dict_get (iters (tst s)) (external_duals (tst s)) with
  | Some duals => average duals
  | None => NaN
  end.

(** The number of registered external sample sets. *)
Definition n_external (s : BigModel) : nat :=
  match sets (tst s) with
  | Some ts => length (externalFs ts)
  | None => 0
  end.

(** ** Models for the examples *)

(** The object as [__init__] leaves it, for a generator, target expectations
    and an iteration bound. *)
Definition new_BigModel (gen : nat -> draw) (target : vec) (maxit : Z) : BigModel :=
  mkBigModel None target None gen 0
    (mkSample None None None)
    (mkCache None None None None)
    (mkSettings 1 true false (Some (3 / 4)) false true false 0 None maxit None)
    (mkTesting None None [] [] PosInf None 0)
    None None.

(** *** A small model for the examples

    Two features on three sample points, drawn uniformly from a sampler that
    always hands back the same sample. *)
Definition F3 : ndarray2 := mkArray2 2 3 [[1; 0; 1]; [0; 1; 1]].
Definition logq3 : vec := [0; 0; 0].
Definition xs3 : list point := [Point 0; Point 1; Point 2].
Definition gen3 : nat -> draw := fun _ => mkDraw F3 (ndarray1 logq3) xs3.

(** The model with parameters [1; 2] and the sample above as its current
    sample, nothing cached. *)
Definition model3 : BigModel :=
  set_smp (mkSample (Some F3) (Some (ndarray1 logq3)) (Some xs3))
    (set_params (Some [1; 2]) (new_BigModel gen3 [1; 1] 3)).

(** The small model with two trials configured. *)
Definition model3_two_trials : BigModel := set_matrixtrials 2 model3.

(** A sampler whose log-probabilities have the wrong length for [F3]. *)
Definition gen_short : nat -> draw := fun _ => mkDraw F3 (ndarray1 [0; 0]) xs3.

(** The small model set up for stochastic approximation: initial step size
    1, two trials configured, static sample, at most 3 iterations. *)
Definition sa_model3 : BigModel :=
  set_cfg (mkSettings 2 true false (Some (3 / 4)) false true false 0 (Some 1) 3 None) model3.


(** *** A scripted test run

    One external sample with the single feature 1 at its single point and
    target expectation 0: the dual at parameter [a] is [a] itself. *)
Definition F1 : ndarray2 := mkArray2 1 1 [[1]].

(** The scripted model with given parameters, best-so-far record and
    recorded histories. *)
Definition scripted_at (theta : option vec) (best : pyfloat) (bp : option vec)
    (ed eg : dict (list R)) : BigModel :=
  mkBigModel theta [0] None (fun _ => mkDraw F1 (ndarray1 [0]) [Point 0]) 0
    (mkSample None None None)
    (mkCache None None None None)
    (mkSettings 1 true false (Some (3 / 4)) false true false 0 None 3 None)
    (mkTesting None (Some (mkTestsets [F1] [[0]] None)) ed eg best bp 0)
    None None.


(** * Further methods and notions *)

(** ** Outcomes *)

(** The object an outcome leaves, returning or raising. *)
Definition final_state {A} (o : outcome A) : option BigModel :=
  match o with
  | Returns _ s => Some s
  | Raises _ s => Some s
  | Unmodelled => None
  end.

(** [c] relates every object it starts from to the object it leaves, whether
    it returns or raises. *)
Definition keeps {A} (R : BigModel -> BigModel -> Prop) (c : M A) : Prop :=
  forall s s', final_state (c s) = Some s' -> R s s'.

(** ** The remaining methods of [BigModel] *)

(** [_check_features]: "Validation of whether the feature matrix has been
    set properly". *)
Definition _check_features : M unit :=
  s <- gets (fun s => smp s) ;;
  match sampleF s, samplelogprobs s with
  | Some _, Some _ => ret tt
  | _, _ => raise (AttributeError ("first specify a sample feature matrix"
                                   ++ " using setfeatures()")%string)
  end.

(** [np.exp] of a number or of an array *)
Definition np_exp (v : value) : value :=
  match v with
  | Scalar r => Scalar (exp r)
  | Array a => Array (map exp a)
  end.

(** [pdf]: [np.exp(self.logpdf(fx))] *)
Definition pdf (fx : features) : M value :=
  l <- logpdf fx None ;;
  ret (np_exp l).

(** [pdf_function]: the density as a function [p] of a 2-d array of feature
    vectors.  [log_Z_est] is evaluated when the function is made and
    [self.params] each time the function is called. *)
Definition pdf_function : M (ndarray2 -> M vec) :=
  log_Z_est <- lognormconst ;;
  ret (fun fx =>
         theta <- attr "params" params ;;
         w <- lift (innerprodtranspose fx theta) ;;
         ret (map (fun x => exp (x - log_Z_est)) w)).

(** *** The generator of feature matrices *)

(** [feature_sampler]: the generator of tuples [(F, log_q_xs, xs)].  Each
    item calls the auxiliary sampler once and evaluates [vec_f] on the points
    it returned; [auxiliary_sampler i] is what call number [i] of the sampler
    returns. *)
Definition feature_sampler (vec_f : list point -> ndarray2)
    (auxiliary_sampler : nat -> list point * pyobj) : nat -> draw :=
  fun i =>
    let (xs, log_q_xs) := auxiliary_sampler i in
    let F := vec_f xs in
    mkDraw F log_q_xs xs.

Definition set_samplegen (g : nat -> draw) (s : BigModel) : BigModel :=
  mkBigModel (params s) (K s) (priorlogprobs s) g (drawn s) (smp s) (cch s)
             (cfg s) (tst s) (nosignswitch s) (SAerror s).

(** [setfeatures]: set up the generator of feature matrices and draw the
    first sample.  [features] is the vectorised function that
    [vec_feature_function(f, sparse=self.sparse)] of maxentutils.py makes
    from the list [f] (stored as [self.features], which no method here
    reads), and [auxiliary_sampler] is [self.auxiliary_sampler], the sampler
    given to [__init__]; the new generator goes on with the calls of that
    sampler, which [drawn] counts. *)
Definition setfeatures (auxiliary_sampler : nat -> list point * pyobj)
    (features : list point -> ndarray2) : M unit :=
  modify (set_samplegen (feature_sampler features auxiliary_sampler)) ;;;
  resample.

(** *** Registering external samples *)


(** ** Notions used in the further properties *)

(** The item number [i] of the generator, as [resample] stores it. *)
Definition stored (g : nat -> draw) (i : nat) : samplerec :=
  mkSample (Some (draw_F (g i))) (Some (draw_logprobs (g i))) (Some (draw_xs (g i))).

(** Between [s] and [s'] the generator is the same, items were only taken
    from it in order, and the current sample is either untouched or the last
    item taken. *)
Definition sampling_frame (s s' : BigModel) : Prop :=
  samplegen s' = samplegen s /\
  ((drawn s' = drawn s /\ smp s' = smp s) \/
   ((drawn s < drawn s')%nat /\ smp s' = stored (samplegen s) (pred (drawn s')))).

(** The object with the trial count and the static-sample flag as lines
    572-573 of [stochapprox] set them. *)
Definition single_trial (s : BigModel) : BigModel :=
  set_staticsample false (set_matrixtrials 1%Z s).

(** No interim result is cached. *)
Definition no_cache : cache := mkCache None None None None.

(** ** Further models for the examples *)

(** The small model with Deylon's acceleration and Andradottir's scaling
    both switched on, for at most 5 iterations. *)
Definition accelerated_scaled_model3 : BigModel :=
  set_cfg (mkSettings 1 false true (Some (3 / 4)) false true true 0 (Some 1) 5 None) model3.

(** The small model with Deylon's acceleration, resuming at iteration 4. *)
Definition resumed_deylon_model3 : BigModel :=
  set_cfg (mkSettings 1 false true (Some (3 / 4)) false true false 0 (Some 1) 9 (Some 4%Z))
          model3.

(** The small model with the [log n / n] step sizes ([stepdecreaserate] is
    [None]) and Ruppert-Polyak averaging, for one iteration. *)
Definition log_decay_model3 : BigModel :=
  set_cfg (mkSettings 1 false false None false true false 0 (Some 1) 1 None) model3.

(** The same without averaging. *)
Definition plain_no_rate_model3 : BigModel :=
  set_cfg (mkSettings 1 false false None false false false 0 (Some 1) 1 None) model3.

(** The stored feature matrix is the feature function [features] evaluated
    on the stored sample points. *)
Definition features_of_sample (features : list point -> ndarray2) (s : BigModel) : Prop :=
  forall F xs, sampleF (smp s) = Some F -> sample (smp s) = Some xs -> F = features xs.

(** An auxiliary sampler that always returns the three points of the small
    model with their uniform log-probabilities, and the feature function of
    the small model. *)
Definition aux3 : nat -> list point * pyobj := fun _ => (xs3, ndarray1 logq3).

Definition features3 : list point -> ndarray2 :=
  fun xs => mkArray2 2 (length xs)
              [map (fun x => match x with Point 1 => 0 | _ => 1 end) xs;
               map (fun x => match x with Point 0 => 0 | _ => 1 end) xs].

(** Only the cached weights and log Z differ between [s] and [s']. *)
Definition weights_frame (s s' : BigModel) : Prop :=
  cache_frame s s' /\ mu (cch s') = mu (cch s) /\ varE (cch s') = varE (cch s).

(** Neither the generator nor the current sample differs between [s] and
    [s']. *)
Definition sample_untouched (s s' : BigModel) : Prop :=
  samplegen s' = samplegen s /\ drawn s' = drawn s /\ smp s' = smp s.

(** A sampler that returns no point: a feature matrix of two rows and no
    column. *)
Definition gen_empty : nat -> draw := fun _ => mkDraw (mkArray2 2 0 [[]; []]) (ndarray1 []) [].

(** Only the cached weights differ between [s] and [s']. *)
Definition logv_only (s s' : BigModel) : Prop := s' = set_logv (logv (cch s')) s.

(** * Properties *)

(** ** Reasoning about runs *)

Lemma bind_Returns {A B} (c : M A) (f : A -> M B) s b s' :
  bind c f s = Returns b s' ->
  exists a s1, c s = Returns a s1 /\ f a s1 = Returns b s'.
Proof.
  unfold bind. destruct (c s) as [a s1|e s1|]; try discriminate.
  intros H. exists a, s1. split; [reflexivity | exact H].
Qed.

Lemma bind_run {A B} (c : M A) (f : A -> M B) s a s1 :
  c s = Returns a s1 -> bind c f s = f a s1.
Proof. unfold bind. intros ->. reflexivity. Qed.

Lemma bind_raise {A B} (c : M A) (f : A -> M B) s e s1 :
  c s = Raises e s1 -> bind c f s = Raises e s1.
Proof. unfold bind. intros ->. reflexivity. Qed.

(** Split a returning run of [x <- c ;; k] into the run of [c] and the run of
    [k]. *)
Ltac run_inv_anon H :=
  let a := fresh "a" in
  let s1 := fresh "s" in
  let H1 := fresh "Hrun" in
  apply bind_Returns in H; destruct H as (a & s1 & H1 & H).

(** Use an equation about the run and reduce the match it unblocks. *)
Ltac step H := rewrite H; cbv beta iota.

Tactic Notation "run_inv" hyp(H) := run_inv_anon H.

Tactic Notation "run_inv" hyp(H) "as" ident(a) ident(s1) ident(H1) :=
  apply bind_Returns in H; destruct H as (a & s1 & H1 & H).

(** Evaluate a run on a concrete object, leaving the real arithmetic
    alone. *)
Ltac run_cbv :=
  cbv - [Rplus Rminus Rmult Rdiv Rinv Ropp exp ln INR IZR Rlt_dec sqrt Rpower Rmax].

Lemma lift_Returns {A} (r : exn + A) s a s' :
  lift r s = Returns a s' -> r = inr a /\ s' = s.
Proof.
  destruct r as [e|x]; cbn; intros H; inversion H; subst; auto.
Qed.

Lemma scipy_logsumexp_inr v z : scipy_logsumexp v = inr z -> z = logsumexp v.
Proof. destruct v; cbn; intros H; inversion H; reflexivity. Qed.

Lemma attr_Returns {A} name (f : BigModel -> option A) s a s' :
  attr name f s = Returns a s' -> f s = Some a /\ s' = s.
Proof.
  unfold attr. destruct (f s); intros H; inversion H; subst; auto.
Qed.

Lemma local_Returns {A} name (x : option A) s a s' :
  local name x s = Returns a s' -> x = Some a /\ s' = s.
Proof.
  destruct x; cbn; intros H; inversion H; subst; auto.
Qed.

(** ** Arrays *)

Lemma map2_length f u v : length u = length v -> length (map2 f u v) = length u.
Proof.
  revert v. induction u as [|a u IH]; intros [|b v]; cbn; intros H; try easy.
  f_equal. apply IH. lia.
Qed.

Lemma nth_map2 f u v j :
  length u = length v -> (j < length u)%nat ->
  nth j (map2 f u v) 0 = f (nth j u 0) (nth j v 0).
Proof.
  revert v j. induction u as [|a u IH]; intros [|b v] j; cbn; intros H Hj; try lia.
  destruct j as [|j]; [reflexivity|]. apply IH; lia.
Qed.

Lemma map2_Rmult_comm u v : map2 Rmult u v = map2 Rmult v u.
Proof.
  revert v. induction u as [|a u IH]; intros [|b v]; cbn; try reflexivity.
  rewrite IH. f_equal. apply Rmult_comm.
Qed.

Lemma dotR_comm u v : dotR u v = dotR v u.
Proof. unfold dotR. now rewrite map2_Rmult_comm. Qed.

Lemma nth_map_seq (f : nat -> R) n j :
  (j < n)%nat -> nth j (map f (seq 0 n)) 0 = f j.
Proof.
  intros Hj. rewrite (nth_indep _ 0 (f 0%nat)) by (rewrite length_map, length_seq; exact Hj).
  rewrite (map_nth f). now rewrite seq_nth.
Qed.

Lemma broadcast_same f u v :
  length u = length v -> broadcast f u v = inr (map2 f u v).
Proof. unfold broadcast. intros ->. now rewrite Nat.eqb_refl. Qed.

Lemma broadcast_inplace_same f u v :
  length u = length v -> broadcast_inplace f u v = inr (map2 f u v).
Proof. unfold broadcast_inplace. intros ->. now rewrite Nat.eqb_refl. Qed.


(** ** The log importance weights *)

Lemma getitem_nth_error {A} (l : list A) i a s :
  nth_error l i = Some a -> getitem l i s = Returns a s.
Proof. unfold getitem. intros ->. reflexivity. Qed.

Lemma innerprodtranspose_entry F theta :
  length theta = nrows F ->
  exists w, innerprodtranspose F theta = inr w /\ length w = ncols F /\
            forall j, (j < ncols F)%nat -> nth j w 0 = dotR theta (column F j).
Proof.
  intros Hm. unfold innerprodtranspose. rewrite <- Hm, Nat.eqb_refl.
  eexists. split; [reflexivity|]. split.
  - now rewrite length_map, length_seq.
  - intros j Hj. rewrite nth_map_seq by exact Hj. apply dotR_comm.
Qed.

(** The weights computed from a well-shaped sample, before they are stored. *)
Lemma weights_entry theta F logaux prior :
  well_shaped theta F logaux prior ->
  exists w v, innerprodtranspose F theta = inr w /\
    broadcast Rminus w logaux = inr (map2 Rminus w logaux) /\
    match prior with
    | Some p0 => broadcast_inplace Rplus (map2 Rminus w logaux) p0 = inr v
    | None => v = map2 Rminus w logaux
    end /\
    length v = ncols F /\
    forall j, (j < ncols F)%nat -> nth j v 0 = logv_entry theta F logaux prior j.
Proof.
  intros (Hm & Hn & Hp).
  destruct (innerprodtranspose_entry F theta Hm) as (w & Hw & Hlen & Hent).
  assert (Hsub : length (map2 Rminus w logaux) = ncols F)
    by (rewrite map2_length; congruence).
  destruct prior as [p0|].
  - exists w, (map2 Rplus (map2 Rminus w logaux) p0).
    repeat split; auto.
    + apply broadcast_same. congruence.
    + apply broadcast_inplace_same. congruence.
    + rewrite map2_length; congruence.
    + intros j Hj. unfold logv_entry.
      rewrite nth_map2 by congruence. rewrite nth_map2 by congruence.
      now rewrite Hent.
  - exists w, (map2 Rminus w logaux).
    repeat split; auto.
    + apply broadcast_same. congruence.
    + intros j Hj. unfold logv_entry.
      rewrite nth_map2 by congruence. now rewrite Hent.
Qed.

(** The run of [_logv] on a well-shaped active sample with no cached
    weights. *)
Lemma logv_fresh (s : BigModel) theta F logaux prior :
  params s = Some theta ->
  active_sample s = Some (F, logaux, prior) ->
  well_shaped theta F logaux prior ->
  logv (cch s) = None ->
  exists v, _logv s = Returns v (set_logv (Some v) s) /\
            length v = ncols F /\
            forall j, (j < ncols F)%nat -> nth j v 0 = logv_entry theta F logaux prior j.
Proof.
  intros Hp Hact Hws Hc.
  destruct (weights_entry theta F logaux prior Hws) as (w & v & Hw & Hsub & Hpr & Hlen & Hent).
  exists v. split; [|split; assumption].
  unfold active_sample in Hact.
  cbv [_logv bind gets attr ret modify lift raise getitem as_vec].
  step Hc.
  destruct (external (tst s)) as [e|] eqn:He.
  - destruct (sets (tst s)) as [ts|] eqn:Hts; [|discriminate].
    destruct (nth_error (externalFs ts) e) as [F'|] eqn:HF; [|discriminate].
    destruct (nth_error (externallogprobs ts) e) as [lp|] eqn:Hlp; [|discriminate].
    step Hp.
    destruct (externalpriorlogprobs ts) as [ps|] eqn:Hps.
    + destruct (nth_error ps e) as [p0|] eqn:Hp0; [|discriminate].
      inversion Hact; subst F' lp prior.
      step Hw. step Hsub. step Hpr. reflexivity.
    + inversion Hact; subst F' lp prior. subst v.
      step Hw. step Hsub. reflexivity.
  - destruct (sampleF (smp s)) as [F'|] eqn:HF; [|discriminate].
    destruct (samplelogprobs (smp s)) as [[lp|A|lp]|] eqn:Hlp; try discriminate.
    inversion Hact; subst F' lp. cbv beta iota. step Hp. step Hw. step Hlp. step Hsub.
    destruct (priorlogprobs s) as [p0|]; subst prior.
    + step Hpr. reflexivity.
    + subst v. reflexivity.
Qed.

(** C1. For a parameter vector theta of length m and an active sample with a
    feature matrix F of shape (m, n) and a log-auxiliary-density of length n,
    [_logv] (when the weights are not cached already) returns and stores a
    vector of length n whose j-th entry is theta.F[:,j] - logaux_j, plus
    logprior_j when a prior log-density was supplied for that sample. *)
Theorem logv_is_importance_weights (s : BigModel) theta F logaux prior :
  params s = Some theta ->
  active_sample s = Some (F, logaux, prior) ->
  well_shaped theta F logaux prior ->
  logv (cch s) = None ->
  exists v, _logv s = Returns v (set_logv (Some v) s) /\
            length v = ncols F /\
            forall j, (j < ncols F)%nat -> nth j v 0 = logv_entry theta F logaux prior j.
Proof. exact (logv_fresh s theta F logaux prior). Qed.

Lemma logv_is_importance_weights_witness :
  exists v, _logv model3 = Returns v (set_logv (Some v) model3) /\
            length v = 3%nat /\
            forall j, (j < 3)%nat -> nth j v 0 = logv_entry [1; 2] F3 logq3 None j.
Proof.
  apply (logv_is_importance_weights model3 [1; 2] F3 logq3 None).
  - reflexivity.
  - reflexivity.
  - repeat split; reflexivity.
  - reflexivity.
Defined.

(** A cached vector of weights is returned as it is. *)
Lemma logv_cached (s : BigModel) v :
  logv (cch s) = Some v -> _logv s = Returns v s.
Proof. intros H. cbv [_logv bind gets ret]. rewrite H. reflexivity. Qed.

(** ** The log partition function *)

(** [lognormconst] derives its value from the weights that [_logv] hands it. *)
Lemma lognormconst_from_logv (s s1 : BigModel) v :
  logZapprox (cch s) = None ->
  _logv s = Returns v s1 ->
  (0 < length v)%nat ->
  lognormconst s =
  Returns (logsumexp v - ln (INR (length v)))
          (set_logZapprox (Some (logsumexp v - ln (INR (length v)))) s1).
Proof.
  intros Hc Hv Hn.
  unfold lognormconst. unfold bind at 1. unfold gets at 1. rewrite Hc.
  rewrite (bind_run _ _ _ _ _ Hv).
  destruct v as [|x v]; [cbn in Hn; lia|]. reflexivity.
Qed.

(** A cached estimate is returned as it is. *)
Lemma lognormconst_cached (s : BigModel) z :
  logZapprox (cch s) = Some z -> lognormconst s = Returns z s.
Proof. intros H. cbv [lognormconst bind gets ret]. rewrite H. reflexivity. Qed.

(** C2. For a parameter vector, feature matrix and log-auxiliary-density of
    the active sample with n >= 1 points (nothing cached), [lognormconst]
    returns, and caches, logsumexp(logv) - log(n), where logv is the vector
    of the log importance weights theta.F[:,j] - logaux_j (+ logprior_j). *)
Theorem lognormconst_is_logsumexp (s : BigModel) theta F logaux prior :
  params s = Some theta ->
  active_sample s = Some (F, logaux, prior) ->
  well_shaped theta F logaux prior ->
  (0 < ncols F)%nat ->
  logv (cch s) = None ->
  logZapprox (cch s) = None ->
  exists v s',
    lognormconst s = Returns (logsumexp v - ln (INR (ncols F))) s' /\
    logZapprox (cch s') = Some (logsumexp v - ln (INR (ncols F))) /\
    length v = ncols F /\
    forall j, (j < ncols F)%nat -> nth j v 0 = logv_entry theta F logaux prior j.
Proof.
  intros Hp Hact Hws Hn Hcv Hcz.
  destruct (logv_fresh s theta F logaux prior Hp Hact Hws Hcv)
    as (v & Hv & Hlen & Hent).
  exists v. eexists. split; [|split; [|split; [exact Hlen | exact Hent]]].
  - rewrite <- Hlen. apply lognormconst_from_logv; [exact Hcz | exact Hv | lia].
  - rewrite Hlen. reflexivity.
Qed.

Lemma lognormconst_is_logsumexp_witness :
  exists v s',
    lognormconst model3 = Returns (logsumexp v - ln (INR 3)) s' /\
    logZapprox (cch s') = Some (logsumexp v - ln (INR 3)) /\
    length v = 3%nat /\
    forall j, (j < 3)%nat -> nth j v 0 = logv_entry [1; 2] F3 logq3 None j.
Proof.
  apply (lognormconst_is_logsumexp model3 [1; 2] F3 logq3 None).
  - reflexivity.
  - reflexivity.
  - repeat split; reflexivity.
  - cbn. lia.
  - reflexivity.
  - reflexivity.
Defined.

(** ** Validation in [resample] *)

(** The check of the log-probabilities, the last step before the caches are
    cleared. *)
Lemma resample_logprobs_check (s : BigModel) lp n :
  (valid_logprobs lp n ->
   (match lp with
    | ndarray1 v => if (length v =? n)%nat then ret tt else raise ShapeError
    | _ => raise ShapeError
    end) s = Returns tt s) /\
  (~ valid_logprobs lp n ->
   (match lp with
    | ndarray1 v => if (length v =? n)%nat then ret tt else raise ShapeError
    | _ => raise ShapeError
    end) s = Raises ShapeError s).
Proof.
  split.
  - intros (v & -> & <-). now rewrite Nat.eqb_refl.
  - intros Hn. destruct lp as [v|A|v]; try reflexivity.
    destruct (Nat.eqb_spec (length v) n) as [E|E]; [|reflexivity].
    exfalso. apply Hn. exists v. auto.
Qed.

(** [resample] stores the next item of the generator, then validates it. *)
Lemma resample_validate (s : BigModel) :
  resample s = validate (samplegen s (drawn s)) (with_new_sample s).
Proof. reflexivity. Qed.

(** The outcomes of [resample], by the state of the parameters and the
    log-probabilities drawn. *)
Lemma resample_cases (s : BigModel) :
  let d := samplegen s (drawn s) in
  let m := nrows (draw_F d) in
  let n := ncols (draw_F d) in
  let s1 := with_new_sample s in
  (params s = None ->
     (valid_logprobs (draw_logprobs d) n ->
        resample s = Returns tt (set_cch (mkCache None None None None)
                                   (set_params (Some (zeros m)) s1))) /\
     (~ valid_logprobs (draw_logprobs d) n ->
        resample s = Raises ShapeError (set_params (Some (zeros m)) s1))) /\
  (forall theta, params s = Some theta -> length theta <> m ->
     resample s = Raises DimensionMismatchError s1) /\
  (forall theta, params s = Some theta -> length theta = m ->
     (valid_logprobs (draw_logprobs d) n ->
        resample s = Returns tt (set_cch (mkCache None None None None) s1)) /\
     (~ valid_logprobs (draw_logprobs d) n ->
        resample s = Raises ShapeError s1)).
Proof.
  intros d m n s1.
  rewrite resample_validate. fold d. fold s1.
  assert (Hs1 : params s1 = params s) by reflexivity.
  clearbody s1. subst m n.
  split; [|split].
  - intros Hp. rewrite Hp in Hs1.
    destruct (resample_logprobs_check (set_params (Some (zeros (nrows (draw_F d)))) s1)
                (draw_logprobs d) (ncols (draw_F d))) as [Hok Hbad].
    split; intros Hv; cbv [validate bind gets modify]; step Hs1.
    + rewrite (Hok Hv). reflexivity.
    + rewrite (Hbad Hv). reflexivity.
  - intros theta Hp Hne. rewrite Hp in Hs1.
    cbv [validate bind gets modify]. step Hs1.
    destruct (Nat.eqb_spec (nrows (draw_F d)) (length theta)) as [E|E]; [congruence|].
    reflexivity.
  - intros theta Hp He. rewrite Hp in Hs1.
    destruct (resample_logprobs_check s1 (draw_logprobs d) (ncols (draw_F d))) as [Hok Hbad].
    split; intros Hv; cbv [validate bind gets modify]; step Hs1;
      rewrite <- He, Nat.eqb_refl.
    + specialize (Hok Hv). cbv [ret raise] in Hok |- *. rewrite Hok. reflexivity.
    + specialize (Hbad Hv). cbv [ret raise] in Hbad |- *. rewrite Hbad. reflexivity.
Qed.

(** C8. [resample] draws (F, logaux, xs) and validates it in this order.
    When theta was unset it is initialised to the zero vector of length
    [nrows F] (and stays so whether or not the second check then fails);
    when theta is set and its length differs from the row count, the call
    fails with DimensionMismatchError; when logaux is not a one-dimensional
    ndarray of length [ncols F], the call fails, with ShapeError once the
    row-count check has passed (both errors are ValueErrors, and the
    row-count check comes first).  With both checks passed the call returns
    with the new sample stored and the caches cleared. *)
Theorem resample_validation (s : BigModel) :
  let d := samplegen s (drawn s) in
  let m := nrows (draw_F d) in
  let n := ncols (draw_F d) in
  let s1 := with_new_sample s in
  (params s = None ->
     (valid_logprobs (draw_logprobs d) n ->
        resample s = Returns tt (set_cch (mkCache None None None None)
                                   (set_params (Some (zeros m)) s1))) /\
     (~ valid_logprobs (draw_logprobs d) n ->
        resample s = Raises ShapeError (set_params (Some (zeros m)) s1))) /\
  (forall theta, params s = Some theta -> length theta <> m ->
     resample s = Raises DimensionMismatchError s1) /\
  (forall theta, params s = Some theta -> length theta = m ->
     (valid_logprobs (draw_logprobs d) n ->
        resample s = Returns tt (set_cch (mkCache None None None None) s1)) /\
     (~ valid_logprobs (draw_logprobs d) n ->
        resample s = Raises ShapeError s1)) /\
  (~ valid_logprobs (draw_logprobs d) n ->
     exists msg s', resample s = Raises (ValueError msg) s').
Proof.
  intros d m n s1.
  destruct (resample_cases s) as (Hnone & Hbad & Hgood).
  fold d m n s1 in Hnone, Hbad, Hgood.
  split; [exact Hnone|]. split; [exact Hbad|]. split; [exact Hgood|].
  intros Hv. destruct (params s) as [theta|] eqn:Hp.
  - destruct (Nat.eq_dec (length theta) m) as [E|E].
    + destruct (Hgood theta eq_refl E) as [_ H]. rewrite (H Hv).
      eexists. eexists. reflexivity.
    + rewrite (Hbad theta eq_refl E). eexists. eexists. reflexivity.
  - destruct (Hnone eq_refl) as [_ H]. rewrite (H Hv).
    eexists. eexists. reflexivity.
Qed.

Lemma resample_validation_witness :
  params (match resample (new_BigModel gen3 [1; 1] 3) with
          | Returns _ s' => s'
          | _ => new_BigModel gen3 [1; 1] 3
          end) = Some (zeros 2) /\
  (exists s', resample (set_params (Some [1; 2; 3]) (new_BigModel gen3 [1; 1] 3))
              = Raises DimensionMismatchError s') /\
  (exists s', resample (set_params (Some [1; 2]) (new_BigModel gen_short [1; 1] 3))
              = Raises ShapeError s').
Proof.
  assert (Hok : valid_logprobs (ndarray1 logq3) 3) by (exists logq3; split; reflexivity).
  assert (Hbad : ~ valid_logprobs (ndarray1 [0; 0]) 3).
  { intros (v & Hv & Hl). inversion Hv; subst. discriminate. }
  split; [|split].
  - destruct (resample_validation (new_BigModel gen3 [1; 1] 3)) as ((H & _) & _).
    + reflexivity.
    + rewrite (H Hok). reflexivity.
  - destruct (resample_validation (set_params (Some [1; 2; 3]) (new_BigModel gen3 [1; 1] 3)))
      as (_ & H & _).
    eexists. apply (H [1; 2; 3]).
    + reflexivity.
    + cbn. lia.
  - destruct (resample_validation (set_params (Some [1; 2]) (new_BigModel gen_short [1; 1] 3)))
      as (_ & _ & H & _).
    eexists. apply (H [1; 2]).
    + reflexivity.
    + reflexivity.
    + exact Hbad.
Defined.

(** ** Frames: what a method leaves alone *)

Section Frames.
Variable R : BigModel -> BigModel -> Prop.
Hypothesis R_refl : forall s, R s s.
Hypothesis R_trans : forall s1 s2 s3, R s1 s2 -> R s2 s3 -> R s1 s3.

Lemma preserves_ret {A} (a : A) : preserves R (ret a).
Proof. intros s b s' H. inversion H; subst. apply R_refl. Qed.

Lemma preserves_raise {A} e : preserves R (@raise A e).
Proof. intros s b s' H. discriminate. Qed.

Lemma preserves_gets {A} (f : BigModel -> A) : preserves R (gets f).
Proof. intros s b s' H. inversion H; subst. apply R_refl. Qed.

Lemma preserves_lift {A} (r : exn + A) : preserves R (lift r).
Proof. destruct r; [apply preserves_raise | apply preserves_ret]. Qed.

Lemma preserves_attr {A} name (f : BigModel -> option A) : preserves R (attr name f).
Proof. intros s b s' H. apply attr_Returns in H as [_ ->]. apply R_refl. Qed.

Lemma preserves_local {A} name (x : option A) : preserves R (local name x).
Proof. destruct x; [apply preserves_ret | apply preserves_raise]. Qed.

Lemma preserves_getitem {A} (l : list A) i : preserves R (getitem l i).
Proof.
  unfold getitem. destruct (nth_error l i); [apply preserves_ret | apply preserves_raise].
Qed.

Lemma preserves_modify f : (forall s, R s (f s)) -> preserves R (modify f).
Proof. intros Hf s b s' H. inversion H; subst. apply Hf. Qed.

Lemma preserves_bind {A B} (c : M A) (k : A -> M B) :
  preserves R c -> (forall a, preserves R (k a)) -> preserves R (bind c k).
Proof.
  intros Hc Hk s b s' H. run_inv H.
  eapply R_trans; [eapply Hc | eapply Hk]; eassumption.
Qed.

Lemma preserves_unmodelled {A} : preserves R (fun _ => @Unmodelled A).
Proof. intros s b s' H. discriminate. Qed.
End Frames.

(** Break a frame goal down along the structure of the method. *)
Ltac frame_step Hrefl Htrans :=
  match goal with
  | |- preserves _ (bind _ _) => apply (preserves_bind _ Htrans); [|intros ?]
  | |- preserves _ (ret _) => apply (preserves_ret _ Hrefl)
  | |- preserves _ (raise _) => apply preserves_raise
  | |- preserves _ (unbound _ _) => apply preserves_raise
  | |- preserves _ (norm _) => apply preserves_raise
  | |- preserves _ (columnvariances _) => apply preserves_raise
  | |- preserves _ (columnmeans _) => apply preserves_raise
  | |- preserves _ (gets _) => apply (preserves_gets _ Hrefl)
  | |- preserves _ (lift _) => apply (preserves_lift _ Hrefl)
  | |- preserves _ (attr _ _) => apply (preserves_attr _ Hrefl)
  | |- preserves _ (local _ _) => apply (preserves_local _ Hrefl)
  | |- preserves _ (getitem _ _) => apply (preserves_getitem _ Hrefl)
  | |- preserves _ (fun _ => Unmodelled) => apply preserves_unmodelled
  | |- preserves _ (match ?x with _ => _ end) => destruct x
  | |- preserves _ (if ?x then _ else _) => destruct x
  end.

(** From a returning run [H : c s = Returns b s'] to a frame of [c]. *)
Ltac by_frame H :=
  match type of H with
  | ?c ?s = Returns ?b ?s' =>
      let P := fresh "P" in
      match goal with
      | |- ?R s s' => assert (P : preserves R c); [clear H | exact (P s b s' H)]
      end
  end.

Lemma estimator_frame_refl s : estimator_frame s s.
Proof. unfold estimator_frame. intuition. Qed.

Lemma estimator_frame_trans s1 s2 s3 :
  estimator_frame s1 s2 -> estimator_frame s2 s3 -> estimator_frame s1 s3.
Proof.
  unfold estimator_frame. intros (P1 & H1) (P2 & H2).
  split; [auto|]. intuition congruence.
Qed.

Ltac est_frame :=
  repeat first
    [ frame_step estimator_frame_refl estimator_frame_trans
    | assumption
    | match goal with H : _ |- preserves _ _ => apply H end
    | apply preserves_modify; intros ?; unfold estimator_frame; cbn; intuition congruence ].

Lemma clearcache_frame : preserves estimator_frame clearcache.
Proof. unfold clearcache. est_frame. Qed.

Lemma validate_frame d : preserves estimator_frame (validate d).
Proof.
  pose proof clearcache_frame as Hcc.
  intros s b s' H. unfold validate in H.
  apply bind_Returns in H as (p & s0 & Hp & H). inversion Hp; subst s0 p; clear Hp.
  destruct (params s) as [theta|] eqn:E.
  - by_frame H. est_frame.
  - run_inv H. inversion Hrun; subst s0; clear Hrun.
    apply estimator_frame_trans with (s2 := set_params (Some (zeros (nrows (draw_F d)))) s).
    + unfold estimator_frame. cbn. rewrite E. repeat split; auto. discriminate.
    + by_frame H. est_frame.
Qed.

Lemma resample_frame : preserves estimator_frame resample.
Proof.
  intros s b s' H. rewrite resample_validate in H.
  eapply estimator_frame_trans; [|eapply validate_frame; exact H].
  unfold estimator_frame. cbn. repeat split; auto.
Qed.

Lemma logv_frame : preserves estimator_frame _logv.
Proof. unfold _logv, as_vec. est_frame. Qed.

Lemma lognormconst_frame : preserves estimator_frame lognormconst.
Proof. pose proof logv_frame. unfold lognormconst. est_frame. Qed.

Lemma activeF_frame : preserves estimator_frame activeF.
Proof. unfold activeF. est_frame. Qed.

Lemma trial_frame : preserves estimator_frame trial.
Proof.
  pose proof logv_frame. pose proof lognormconst_frame.
  pose proof resample_frame. pose proof activeF_frame.
  unfold trial, div_by_len. est_frame.
Qed.

Lemma trials_frame t mus logZs : preserves estimator_frame (trials t mus logZs).
Proof.
  pose proof trial_frame.
  revert mus logZs. induction t as [|t IH]; intros mus logZs; cbn [trials]; est_frame.
Qed.

Lemma aggregate_frame mus logZs : preserves estimator_frame (aggregate mus logZs).
Proof. unfold aggregate. est_frame. Qed.

Lemma estimate_frame : preserves estimator_frame estimate.
Proof.
  pose proof trials_frame. pose proof aggregate_frame.
  unfold estimate. est_frame.
Qed.

Lemma expectations_frame : preserves estimator_frame expectations.
Proof. pose proof estimate_frame. unfold expectations. est_frame. Qed.


(** ** The density *)

(** The value that [lognormconst] returns is the one in the cache
    afterwards. *)
Lemma lognormconst_caches s z s' :
  lognormconst s = Returns z s' -> logZapprox (cch s') = Some z.
Proof.
  unfold lognormconst. intros H. run_inv H.
  inversion Hrun; subst; clear Hrun.
  destruct (logZapprox (cch s0)) as [z0|] eqn:E.
  - inversion H; subst. exact E.
  - run_inv H as v s1 Hv. run_inv H as lse s2 Hl. run_inv H as logn s3 Hn.
    run_inv H as u s4 Hu. inversion Hu; subst; clear Hu.
    inversion H; subst. reflexivity.
Qed.

Lemma dot_Returns u v s d s' :
  lift (dot u v) s = Returns d s' -> d = dotR u v /\ length u = length v /\ s' = s.
Proof.
  unfold dot. destruct (Nat.eqb_spec (length u) (length v)) as [E|E]; cbn; intros H.
  - inversion H; subst. auto.
  - discriminate.
Qed.

(** [logpdf] of a 1-d feature vector without a prior: what it returns and
    what it leaves in the cache. *)
Lemma logpdf_1d s theta fx r s1 :
  params s = Some theta ->
  logpdf (fx1 fx) None s = Returns r s1 ->
  exists z, r = Scalar (dotR theta fx - z) /\ logZapprox (cch s1) = Some z /\
            lognormconst s = Returns z s1.
Proof.
  intros Hp H. unfold logpdf in H.
  run_inv H. run_inv H. inversion H; subst; clear H.
  run_inv Hrun0. run_inv Hrun0. inversion Hrun0; subst; clear Hrun0.
  apply attr_Returns in Hrun1 as [Hth ->].
  apply dot_Returns in Hrun2 as (-> & _ & ->).
  pose proof (lognormconst_frame _ _ _ Hrun) as (Hkeep & _).
  rewrite (Hkeep _ Hp) in Hth. inversion Hth; subst.
  exists a. split; [reflexivity|]. split; [|exact Hrun].
  eapply lognormconst_caches; eassumption.
Qed.

(** When the log partition function can be estimated and [fx] has one entry
    per parameter, [logpdf] returns. *)
Lemma logpdf_returns s theta fx z s1 :
  params s = Some theta -> length theta = length fx ->
  lognormconst s = Returns z s1 ->
  logpdf (fx1 fx) None s = Returns (Scalar (dotR theta fx - z)) s1.
Proof.
  intros Hp Hl Hz. unfold logpdf. rewrite (bind_run _ _ _ _ _ Hz).
  destruct (lognormconst_frame _ _ _ Hz) as (Hkeep & _).
  cbv [bind attr lift dot ret]. rewrite (Hkeep _ Hp), Hl, Nat.eqb_refl. reflexivity.
Qed.

(** C4. For a 1-d feature vector fx and parameters theta, with no prior
    log-density, the value of [logpdf(fx)] plus the value of [lognormconst()]
    called after it is theta.fx, whatever the object (its sample, its
    selector, its caches) was when the log partition function was
    estimated. *)
Theorem logpdf_plus_lognormconst (s : BigModel) theta fx r s1 z s2 :
  params s = Some theta ->
  logpdf (fx1 fx) None s = Returns r s1 ->
  lognormconst s1 = Returns z s2 ->
  exists l, r = Scalar l /\ l + z = dotR theta fx.
Proof.
  intros Hp Hl Hz.
  destruct (logpdf_1d s theta fx r s1 Hp Hl) as (z0 & -> & Hc & _).
  rewrite (lognormconst_cached _ _ Hc) in Hz. inversion Hz; subst.
  eexists. split; [reflexivity|]. lra.
Qed.

Lemma logpdf_plus_lognormconst_witness :
  exists r s1 z s2,
    logpdf (fx1 [1; 0]) None model3 = Returns r s1 /\
    lognormconst s1 = Returns z s2 /\
    exists l, r = Scalar l /\ l + z = dotR [1; 2] [1; 0].
Proof.
  eexists. eexists. eexists. eexists.
  split; [reflexivity|]. split; [reflexivity|].
  eapply (logpdf_plus_lognormconst model3 [1; 2] [1; 0]); reflexivity.
Defined.

(** ** What a method leaves alone, also when it raises *)

Lemma keeps_preserves {A} R (c : M A) : keeps R c -> preserves R c.
Proof. intros H s a s' Hrun. apply H. now rewrite Hrun. Qed.

Section Keeps.
Variable R : BigModel -> BigModel -> Prop.
Hypothesis R_refl : forall s, R s s.
Hypothesis R_trans : forall s1 s2 s3, R s1 s2 -> R s2 s3 -> R s1 s3.

Lemma keeps_ret {A} (a : A) : keeps R (ret a).
Proof. intros s s' H. inversion H; subst. apply R_refl. Qed.

Lemma keeps_raise {A} e : keeps R (@raise A e).
Proof. intros s s' H. inversion H; subst. apply R_refl. Qed.

Lemma keeps_gets {A} (f : BigModel -> A) : keeps R (gets f).
Proof. intros s s' H. inversion H; subst. apply R_refl. Qed.

Lemma keeps_lift {A} (r : exn + A) : keeps R (lift r).
Proof. destruct r; [apply keeps_raise | apply keeps_ret]. Qed.

Lemma keeps_attr {A} name (f : BigModel -> option A) : keeps R (attr name f).
Proof.
  intros s s' H. unfold attr in H. destruct (f s); inversion H; subst; apply R_refl.
Qed.

Lemma keeps_local {A} name (x : option A) : keeps R (local name x).
Proof. destruct x; [apply keeps_ret | apply keeps_raise]. Qed.

Lemma keeps_getitem {A} (l : list A) i : keeps R (getitem l i).
Proof.
  unfold getitem. destruct (nth_error l i); [apply keeps_ret | apply keeps_raise].
Qed.

Lemma keeps_modify f : (forall s, R s (f s)) -> keeps R (modify f).
Proof. intros Hf s s' H. inversion H; subst. apply Hf. Qed.

Lemma keeps_unmodelled {A} : keeps R (fun _ => @Unmodelled A).
Proof. intros s s' H. discriminate. Qed.

Lemma keeps_bind {A B} (c : M A) (k : A -> M B) :
  keeps R c -> (forall a, keeps R (k a)) -> keeps R (bind c k).
Proof.
  intros Hc Hk s s' H. unfold bind in H.
  destruct (c s) as [a s1|e s1|] eqn:E.
  - eapply R_trans; [apply Hc; rewrite E; reflexivity | eapply Hk; exact H].
  - apply Hc. rewrite E. exact H.
  - discriminate.
Qed.
End Keeps.

Ltac keeps_step Hrefl Htrans :=
  match goal with
  | |- keeps _ (bind _ _) => apply (keeps_bind _ Htrans); [|intros ?]
  | |- keeps _ (ret _) => apply (keeps_ret _ Hrefl)
  | |- keeps _ (raise _) => apply (keeps_raise _ Hrefl)
  | |- keeps _ (unbound _ _) => apply (keeps_raise _ Hrefl)
  | |- keeps _ (norm _) => apply (keeps_raise _ Hrefl)
  | |- keeps _ (columnvariances _) => apply (keeps_raise _ Hrefl)
  | |- keeps _ (columnmeans _) => apply (keeps_raise _ Hrefl)
  | |- keeps _ (gets _) => apply (keeps_gets _ Hrefl)
  | |- keeps _ (lift _) => apply (keeps_lift _ Hrefl)
  | |- keeps _ (attr _ _) => apply (keeps_attr _ Hrefl)
  | |- keeps _ (local _ _) => apply (keeps_local _ Hrefl)
  | |- keeps _ (getitem _ _) => apply (keeps_getitem _ Hrefl)
  | |- keeps _ (fun _ => Unmodelled) => apply keeps_unmodelled
  | |- keeps _ (match ?x with _ => _ end) => destruct x
  | |- keeps _ (if ?x then _ else _) => destruct x
  end.

Ltac est_keeps :=
  repeat first
    [ keeps_step estimator_frame_refl estimator_frame_trans
    | assumption
    | match goal with H : _ |- keeps _ _ => apply H end
    | apply keeps_modify; intros ?; unfold estimator_frame; cbn; intuition congruence ].

Lemma clearcache_keeps : keeps estimator_frame clearcache.
Proof. unfold clearcache. est_keeps. Qed.

(** From an outcome [H : final_state (c s) = Some s'] to a frame of [c]. *)
Ltac by_keeps H :=
  match type of H with
  | final_state (?c ?s) = Some ?s' =>
      let P := fresh "P" in
      match goal with
      | |- ?R s s' => assert (P : keeps R c); [clear H | exact (P s s' H)]
      end
  end.

Lemma validate_keeps d : keeps estimator_frame (validate d).
Proof.
  pose proof clearcache_keeps as Hcc.
  intros s s' H. unfold validate in H. unfold bind at 1 in H. unfold gets at 1 in H.
  destruct (params s) as [theta|] eqn:E.
  - by_keeps H. est_keeps.
  - unfold bind at 1 in H. unfold modify at 1 in H.
    apply estimator_frame_trans with (s2 := set_params (Some (zeros (nrows (draw_F d)))) s).
    + unfold estimator_frame. cbn. rewrite E. repeat split; auto. discriminate.
    + by_keeps H. est_keeps.
Qed.

Lemma resample_keeps : keeps estimator_frame resample.
Proof.
  intros s s' H. rewrite resample_validate in H.
  eapply estimator_frame_trans; [|eapply validate_keeps; exact H].
  unfold estimator_frame. cbn. repeat split; auto.
Qed.

Lemma logv_keeps : keeps estimator_frame _logv.
Proof. unfold _logv, as_vec. est_keeps. Qed.

Lemma lognormconst_keeps : keeps estimator_frame lognormconst.
Proof. pose proof logv_keeps. unfold lognormconst. est_keeps. Qed.

Lemma activeF_keeps : keeps estimator_frame activeF.
Proof. unfold activeF. est_keeps. Qed.

Lemma trial_keeps : keeps estimator_frame trial.
Proof.
  pose proof logv_keeps. pose proof lognormconst_keeps.
  pose proof resample_keeps. pose proof activeF_keeps.
  unfold trial, div_by_len. est_keeps.
Qed.

Lemma trials_keeps t mus logZs : keeps estimator_frame (trials t mus logZs).
Proof.
  pose proof trial_keeps.
  revert mus logZs. induction t as [|t IH]; intros mus logZs; cbn [trials]; est_keeps.
Qed.

Lemma aggregate_keeps mus logZs : keeps estimator_frame (aggregate mus logZs).
Proof. unfold aggregate. est_keeps. Qed.

Lemma estimate_keeps : keeps estimator_frame estimate.
Proof.
  pose proof trials_keeps. pose proof aggregate_keeps.
  unfold estimate. est_keeps.
Qed.

Lemma expectations_keeps : keeps estimator_frame expectations.
Proof. pose proof estimate_keeps. unfold expectations. est_keeps. Qed.

Lemma logpdf_keeps fx p0 : keeps estimator_frame (logpdf fx p0).
Proof. pose proof lognormconst_keeps. unfold logpdf. est_keeps. Qed.

(** ** The expectation estimator *)

Lemma logv_caches s v s' : _logv s = Returns v s' -> logv (cch s') = Some v.
Proof.
  unfold _logv. intros H. run_inv H. inversion Hrun; subst; clear Hrun.
  destruct (logv (cch s0)) as [v0|] eqn:E.
  - inversion H; subst. exact E.
  - run_inv H. run_inv H. run_inv H. inversion H; subst; clear H.
    inversion Hrun1; subst. reflexivity.
Qed.

Lemma lognormconst_keeps_logv s v z s' :
  logv (cch s) = Some v -> lognormconst s = Returns z s' -> logv (cch s') = Some v.
Proof.
  intros Hv H. unfold lognormconst in H. run_inv H. inversion Hrun; subst; clear Hrun.
  destruct (logZapprox (cch s0)).
  - inversion H; subst. exact Hv.
  - rewrite (bind_run _ _ _ _ _ (logv_cached _ _ Hv)) in H.
    run_inv H as lse s1 Hl. apply lift_Returns in Hl as [_ ->].
    run_inv H as logn s2 Hn. apply lift_Returns in Hn as [_ ->].
    run_inv H as u s3 Hu. inversion Hu; subst. inversion H; subst. exact Hv.
Qed.

Lemma activeF_pure s F s' : activeF s = Returns F s' -> s' = s.
Proof.
  unfold activeF. intros H. run_inv H. inversion Hrun; subst; clear Hrun.
  destruct (external (tst s0)).
  - run_inv H. apply attr_Returns in Hrun as [_ ->].
    unfold getitem in H. destruct (nth_error _ _); inversion H; reflexivity.
  - apply attr_Returns in H as [_ ->]. reflexivity.
Qed.

(** Each trial's estimate is [F . exp(logv - logZ_t) / n]. *)
Lemma trial_gives_result s r s1 :
  trial s = Returns r s1 -> trial_result s1 (fst r) (snd r).
Proof.
  unfold trial. intros H.
  run_inv H as c sa Hc. clear Hc. run_inv H as u sb Hre. clear Hre.
  run_inv H as v sc Hv. run_inv H as z sd Hz. run_inv H as F se HF.
  run_inv H as av sf Hmv. run_inv H as av' sg Hdiv.
  pose proof (activeF_pure _ _ _ HF); subst se.
  apply lift_Returns in Hmv as [Hmv ->].
  unfold div_by_len in Hdiv. destruct (length v) eqn:Hn; [discriminate|].
  inversion Hdiv; subst; clear Hdiv. inversion H; subst; clear H. cbn [fst snd].
  exists F, v. split; [exact HF|].
  pose proof (logv_caches _ _ _ Hv) as Hcv.
  split; [eapply lognormconst_keeps_logv; eassumption|].
  split; [eapply lognormconst_caches; eassumption|].
  unfold matvec in Hmv. destruct (ncols F =? _)%nat; [|discriminate].
  inversion Hmv; subst; clear Hmv.
  unfold weighted_average. rewrite map_map, map_map, Hn. reflexivity.
Qed.

Lemma trials_chain t : forall mus logZs s r s',
  trials t mus logZs s = Returns r s' ->
  exists rs, trial_chain s rs s' /\ length rs = t /\
             fst r = mus ++ map fst rs /\ snd r = logZs ++ map snd rs.
Proof.
  induction t as [|t IH]; intros mus logZs s r s' H; cbn [trials] in H.
  - inversion H; subst. exists []. cbn. rewrite !app_nil_r.
    repeat split. constructor.
  - run_inv H. destruct (IH _ _ _ _ _ H) as (rs & Hch & Hlen & Hm & Hz).
    exists (a :: rs). repeat split.
    + econstructor; eauto using trial_gives_result.
    + cbn. now rewrite Hlen.
    + rewrite Hm, <- app_assoc. reflexivity.
    + rewrite Hz, <- app_assoc. reflexivity.
Qed.


(** What [aggregate] stores when it returns: it returns only after a single
    trial. *)
Lemma aggregate_stores mus logZs s s' :
  aggregate mus logZs s = Returns tt s' ->
  length mus = 1%nat /\
  mu (cch s') = Some (hd [] mus) /\ logZapprox (cch s') = Some (hd 0 logZs) /\
  varE (cch s') = None.
Proof.
  unfold aggregate. intros H.
  destruct (Nat.eqb_spec (length mus) 1) as [E|E].
  - cbv [bind modify] in H. inversion H; subst. cbn. auto.
  - run_inv H as lse s1 Hl. run_inv H as logT s2 Hlog. run_inv H as u s3 Hu.
    run_inv H as v s4 Hv. discriminate.
Qed.

(** After several trials [aggregate] stores the pooled log Z and stops at
    [columnvariances]. *)
Lemma aggregate_pools mus logZs s :
  (1 < length mus)%nat -> logZs <> [] ->
  aggregate mus logZs s =
    Raises (NameError "columnvariances")
           (set_logZapprox (Some (logsumexp logZs - ln (INR (length mus)))) s).
Proof.
  intros Hlt Hne. unfold aggregate.
  destruct (Nat.eqb_spec (length mus) 1) as [E|E]; [lia|].
  destruct logZs as [|z logZs]; [congruence|].
  destruct (length mus) as [|n0] eqn:En; [lia|].
  reflexivity.
Qed.

Lemma estimate_runs s s' :
  estimate s = Returns tt s' ->
  exists rs s2,
    trial_chain s rs s2 /\ length rs = Z.to_nat (matrixtrials (cfg s)) /\
    aggregate (map fst rs) (map snd rs) s2 = Returns tt s'.
Proof.
  unfold estimate. intros H.
  run_inv H as T s0 HT. inversion HT; subst; clear HT.
  run_inv H as r s2 Hr.
  destruct (trials_chain _ _ _ _ _ _ Hr) as (rs & Hch & Hlen & Hm & Hz).
  cbn in Hm, Hz. rewrite Hm, Hz in H.
  exists rs, s2. auto.
Qed.

(** *** The caches *)

Lemma cache_frame_refl s : cache_frame s s.
Proof. unfold cache_frame. destruct s; reflexivity. Qed.

Lemma cache_frame_trans s1 s2 s3 :
  cache_frame s1 s2 -> cache_frame s2 s3 -> cache_frame s1 s3.
Proof. unfold cache_frame. intros H1 H2. rewrite H2, H1 at 1. reflexivity. Qed.

Ltac cch_frame :=
  repeat first
    [ frame_step cache_frame_refl cache_frame_trans
    | assumption
    | match goal with H : _ |- preserves _ _ => apply H end
    | apply preserves_modify; intros ?; unfold cache_frame; reflexivity ].

Lemma logv_cache_frame : preserves cache_frame _logv.
Proof. unfold _logv, as_vec. cch_frame. Qed.

Lemma lognormconst_cache_frame : preserves cache_frame lognormconst.
Proof. pose proof logv_cache_frame. unfold lognormconst. cch_frame. Qed.

Lemma activeF_cache_frame s s' F :
  cache_frame s s' -> activeF s = Returns F s -> activeF s' = Returns F s'.
Proof.
  intros Hf H. unfold cache_frame in Hf.
  assert (Ht : tst s' = tst s) by (rewrite Hf; reflexivity).
  assert (Hs : smp s' = smp s) by (rewrite Hf; reflexivity).
  revert H. cbv [activeF bind gets attr getitem ret raise]. rewrite Ht.
  destruct (external (tst s)).
  - rewrite Ht. destruct (sets (tst s)); [|discriminate].
    destruct (nth_error _ _); [|discriminate]. intros H; inversion H; reflexivity.
  - rewrite Hs. destruct (sampleF (smp s)); [|discriminate].
    intros H; inversion H; reflexivity.
Qed.

Lemma innerprodtranspose_rows F theta w :
  innerprodtranspose F theta = inr w -> nrows F = length theta.
Proof.
  unfold innerprodtranspose. destruct (Nat.eqb_spec (nrows F) (length theta)); [auto|discriminate].
Qed.

(** Weights computed afresh have met a feature matrix with as many rows as
    there are parameters. *)
Lemma logv_fresh_rows s theta v s' :
  logv (cch s) = None -> params s = Some theta ->
  _logv s = Returns v s' ->
  exists F, activeF s = Returns F s /\ nrows F = length theta.
Proof.
  intros Hc Hp H. unfold _logv in H.
  run_inv H as c s0 Hc0. inversion Hc0; subst c s0; clear Hc0. rewrite Hc in H.
  run_inv H as e s1 He. inversion He; subst e s1; clear He.
  run_inv H as w s2 Hw. clear H.
  unfold activeF. cbv [bind gets].
  destruct (external (tst s)) as [e|].
  - run_inv Hw as ts s3 Hts. destruct (attr_Returns _ _ _ _ _ Hts) as [_ ->]. rewrite Hts.
    run_inv Hw as F s4 HF. rewrite HF.
    assert (s4 = s) by (unfold getitem in HF; destruct (nth_error _ _); inversion HF; auto).
    subst s4.
    run_inv Hw as th s5 Hth. apply attr_Returns in Hth as [Hth ->].
    run_inv Hw as pF s6 HpF. apply lift_Returns in HpF as [HpF ->].
    rewrite Hp in Hth. inversion Hth; subst th.
    exists F. split; [reflexivity|]. eapply innerprodtranspose_rows; eassumption.
  - run_inv Hw as F s3 HF. destruct (attr_Returns _ _ _ _ _ HF) as [_ ->]. rewrite HF.
    run_inv Hw as th s5 Hth. apply attr_Returns in Hth as [Hth ->].
    run_inv Hw as pF s6 HpF. apply lift_Returns in HpF as [HpF ->].
    rewrite Hp in Hth. inversion Hth; subst th.
    exists F. split; [reflexivity|]. eapply innerprodtranspose_rows; eassumption.
Qed.

Lemma validate_clears d s s' : validate d s = Returns tt s' -> cch s' = mkCache None None None None.
Proof.
  unfold validate. intros H.
  run_inv H as p s0 Hp. run_inv H as u1 s1 H1. run_inv H as u2 s2 H2.
  inversion H; subst. reflexivity.
Qed.

Lemma resample_clears s s' : resample s = Returns tt s' -> cch s' = mkCache None None None None.
Proof. rewrite resample_validate. apply validate_clears. Qed.

(** A trial on a fresh sample gives an estimate with one entry per
    parameter. *)
Lemma trial_mu_length s theta r s' :
  staticsample (cfg s) = false -> params s = Some theta ->
  trial s = Returns r s' -> length (fst r) = length theta.
Proof.
  intros Hst Hp H. unfold trial in H.
  run_inv H as c sa Hc. inversion Hc; subst; clear Hc.
  rewrite Hst in H. cbn [negb orb] in H.
  run_inv H as u sb Hre. destruct u.
  run_inv H as v sc Hv. run_inv H as z sd Hz. run_inv H as F se HF.
  run_inv H as av sf Hmv. run_inv H as av' sg Hdiv.
  inversion H; subst; clear H. cbn [fst].
  pose proof (activeF_pure _ _ _ HF); subst se.
  pose proof (resample_clears _ _ Hre) as Hcl.
  destruct (resample_frame _ _ _ Hre) as (Hkeep & _).
  destruct (logv_fresh_rows sb theta v sc) as (F0 & HF0 & Hrows); auto.
  { rewrite Hcl. reflexivity. }
  assert (Hcf : cache_frame sb sd).
  { eapply cache_frame_trans;
      [eapply logv_cache_frame | eapply lognormconst_cache_frame]; eassumption. }
  rewrite (activeF_cache_frame _ _ _ Hcf HF0) in HF. inversion HF; subst F0.
  apply lift_Returns in Hmv as [Hmv ->].
  unfold matvec in Hmv. destruct (ncols F =? _)%nat; [|discriminate].
  inversion Hmv; subst av.
  unfold div_by_len in Hdiv. destruct (length v); [discriminate|].
  inversion Hdiv; subst. now rewrite !length_map, length_seq.
Qed.

(** With one trial and no static sample, [estimate] stores an estimate with
    one entry per parameter. *)
Lemma estimate_mu_length s theta s' :
  matrixtrials (cfg s) = 1%Z -> staticsample (cfg s) = false ->
  params s = Some theta ->
  estimate s = Returns tt s' ->
  exists m, mu (cch s') = Some m /\ length m = length theta.
Proof.
  intros HT Hst Hp H.
  destruct (estimate_runs _ _ H) as (rs & s2 & Hch & Hlen & Hagg).
  rewrite HT in Hlen. cbn in Hlen.
  destruct rs as [|r [|? ?]]; try discriminate.
  inversion Hch as [|? ? ? ? ? Htr _ _]; subst.
  destruct (aggregate_stores _ _ _ _ Hagg) as (_ & Hmu & _).
  exists (fst r). split; [exact Hmu|].
  eapply trial_mu_length; eassumption.
Qed.


(** *** The weights and log Z are the only caches a trial fills *)

Lemma weights_frame_refl s : weights_frame s s.
Proof. split; [apply cache_frame_refl | split; reflexivity]. Qed.

Lemma weights_frame_trans s1 s2 s3 :
  weights_frame s1 s2 -> weights_frame s2 s3 -> weights_frame s1 s3.
Proof.
  intros (H1 & M1 & V1) (H2 & M2 & V2).
  split; [eapply cache_frame_trans; eassumption | split; congruence].
Qed.

Ltac wts_frame :=
  repeat first
    [ frame_step weights_frame_refl weights_frame_trans
    | assumption
    | match goal with H : _ |- preserves _ _ => apply H end
    | apply preserves_modify; intros ?; split; [unfold cache_frame | split]; reflexivity ].

Lemma logv_weights_frame : preserves weights_frame _logv.
Proof. unfold _logv, as_vec. wts_frame. Qed.

Lemma lognormconst_weights_frame : preserves weights_frame lognormconst.
Proof. pose proof logv_weights_frame. unfold lognormconst. wts_frame. Qed.

Lemma activeF_weights_frame : preserves weights_frame activeF.
Proof. unfold activeF. wts_frame. Qed.

(** A trial that draws its sample leaves no estimate and no variance
    cached. *)
Lemma trial_uncached s r s1 :
  negb (staticsample (cfg s)) || (matrixtrials (cfg s) >? 1)%Z = true ->
  trial s = Returns r s1 -> mu (cch s1) = None /\ varE (cch s1) = None.
Proof.
  intros Hb H. unfold trial in H.
  run_inv H as c s0 Hc. inversion Hc; subst c s0. clear Hc. rewrite Hb in H.
  run_inv H as u s2 Hre. destruct u. apply resample_clears in Hre.
  assert (Hf : weights_frame s2 s1).
  { by_frame H.
    pose proof logv_weights_frame. pose proof lognormconst_weights_frame.
    pose proof activeF_weights_frame. unfold div_by_len. wts_frame. }
  destruct Hf as (_ & Hm & Hv). rewrite Hm, Hv, Hre. split; reflexivity.
Qed.

Lemma trial_chain_uncached s rs s2 :
  trial_chain s rs s2 -> rs <> [] ->
  negb (staticsample (cfg s)) || (matrixtrials (cfg s) >? 1)%Z = true ->
  mu (cch s2) = None /\ varE (cch s2) = None.
Proof.
  induction 1 as [s | s r s1 rs s2 Ht Hres Hch IH]; intros Hne Hb; [congruence|].
  destruct rs as [|r' rs'].
  - inversion Hch; subst. eapply trial_uncached; eassumption.
  - apply IH; [discriminate|].
    pose proof (trial_frame _ _ _ Ht) as (_ & _ & _ & _ & Hcfg & _).
    rewrite Hcfg. exact Hb.
Qed.

(** A chain of returning trials is a run of the loop of [estimate]. *)
Lemma trials_of_chain s rs s2 :
  trial_chain s rs s2 -> forall mus logZs,
  trials (length rs) mus logZs s = Returns (mus ++ map fst rs, logZs ++ map snd rs) s2.
Proof.
  induction 1 as [s | s r s1 rs s2 Ht Hres Hch IH]; intros mus logZs; cbn [length trials map].
  - rewrite !app_nil_r. reflexivity.
  - rewrite (bind_run _ _ _ _ _ Ht), IH, <- !app_assoc. reflexivity.
Qed.

Lemma estimate_single_trial s s' :
  estimate s = Returns tt s' ->
  matrixtrials (cfg s) = 1%Z /\
  exists mu_1 logZ_1 s2,
    trial s = Returns (mu_1, logZ_1) s2 /\ trial_result s2 mu_1 logZ_1 /\
    mu (cch s') = Some mu_1 /\ logZapprox (cch s') = Some logZ_1 /\
    varE (cch s') = None.
Proof.
  intros H. destruct (estimate_runs s s' H) as (rs & s2 & Hch & Hlen & Hagg).
  destruct (aggregate_stores _ _ _ _ Hagg) as (H1 & Hmu & Hz & Hv).
  rewrite length_map in H1. rewrite H1 in Hlen.
  split; [lia|].
  destruct rs as [|[mu_1 logZ_1] [|? ?]]; try discriminate.
  inversion Hch as [|? ? ? ? ? Ht Hres Hrest]; subst. inversion Hrest; subst.
  exists mu_1, logZ_1, s2. cbn in Hmu, Hz. auto 6.
Qed.

Lemma estimate_several_trials s rs s2 :
  (1 < matrixtrials (cfg s))%Z ->
  trial_chain s rs s2 -> length rs = Z.to_nat (matrixtrials (cfg s)) ->
  exists s',
    estimate s = Raises (NameError "columnvariances") s' /\
    logZapprox (cch s') = Some (logsumexp (map snd rs) - ln (IZR (matrixtrials (cfg s)))) /\
    mu (cch s') = None /\ varE (cch s') = None.
Proof.
  intros HT Hch Hlen.
  assert (Hne : rs <> []) by (destruct rs; [cbn in Hlen; lia | discriminate]).
  destruct (trial_chain_uncached s rs s2 Hch Hne) as [Hmu Hv].
  { apply orb_true_iff. right. apply Z.gtb_lt. lia. }
  eexists. split; [|split; [|split]].
  - unfold estimate. cbv [bind gets]. rewrite <- Hlen.
    rewrite (trials_of_chain s rs s2 Hch [] []). cbn [fst snd app].
    apply aggregate_pools.
    + rewrite length_map. lia.
    + destruct rs; [congruence | discriminate].
  - cbn. rewrite length_map, Hlen, INR_IZR_INZ, Z2Nat.id by lia. reflexivity.
  - exact Hmu.
  - exact Hv.
Qed.

(** C3, as the code has it.  [estimate()] returns only with one trial
    configured, and then stores mu = mu_1 and logZ = logZ_1 of that trial,
    mu_1 = F.exp(logv - logZ_1)/n, with varE absent.  With T > 1 trials the
    T trials run, each with its estimate mu_t = F.exp(logv - logZ_t)/n, and
    logZ = logsumexp(logZ_1..logZ_T) - log(T) is stored; then the call of
    [columnvariances], a name the module does not bind, raises NameError:
    neither the mean of the mu_t nor their variance is stored, and mu and
    varE are absent. *)
Theorem estimate_aggregation (s : BigModel) :
  (forall s', estimate s = Returns tt s' ->
     matrixtrials (cfg s) = 1%Z /\
     exists mu_1 logZ_1 s2,
       trial s = Returns (mu_1, logZ_1) s2 /\ trial_result s2 mu_1 logZ_1 /\
       mu (cch s') = Some mu_1 /\ logZapprox (cch s') = Some logZ_1 /\
       varE (cch s') = None) /\
  ((1 < matrixtrials (cfg s))%Z ->
   forall rs s2,
     trial_chain s rs s2 -> length rs = Z.to_nat (matrixtrials (cfg s)) ->
     exists s',
       estimate s = Raises (NameError "columnvariances") s' /\
       logZapprox (cch s') =
         Some (logsumexp (map snd rs) - ln (IZR (matrixtrials (cfg s)))) /\
       mu (cch s') = None /\ varE (cch s') = None).
Proof.
  split.
  - intros s' H. exact (estimate_single_trial s s' H).
  - intros HT rs s2 Hch Hlen. exact (estimate_several_trials s rs s2 HT Hch Hlen).
Qed.

Lemma estimate_aggregation_witness :
  (exists s' mu_1,
     estimate model3 = Returns tt s' /\ mu (cch s') = Some mu_1 /\ varE (cch s') = None) /\
  (exists s',
     estimate model3_two_trials = Raises (NameError "columnvariances") s' /\
     mu (cch s') = None /\ varE (cch s') = None).
Proof.
  split.
  - assert (H : exists s', estimate model3 = Returns tt s')
      by (eexists; run_cbv; reflexivity).
    destruct H as [s' H].
    destruct (estimate_aggregation model3) as [H1 _].
    destruct (H1 s' H) as (_ & mu_1 & logZ_1 & s2 & _ & _ & Hmu & _ & Hv).
    exists s', mu_1. auto.
  - assert (H : exists r s2, trials 2 [] [] model3_two_trials = Returns r s2)
      by (eexists; eexists; run_cbv; reflexivity).
    destruct H as (r & s2 & H).
    destruct (trials_chain _ _ _ _ _ _ H) as (rs & Hch & Hlen & _).
    destruct (estimate_aggregation model3_two_trials) as [_ HT].
    destruct (HT ltac:(cbn; lia) rs s2 Hch Hlen) as (s' & He & _ & Hmu & Hv).
    exists s'. auto.
Defined.

Lemma pdf_keeps fx : keeps estimator_frame (pdf fx).
Proof. pose proof (logpdf_keeps fx None). unfold pdf. est_keeps. Qed.

(** X1. Whatever they do, return or raise, the estimators [resample],
    [_logv], [lognormconst], [estimate], [expectations], [logpdf] and [pdf]
    leave alone the settings, the target, the prior, the generator, the
    external-test attributes (selector, registered sets, histories, best
    record) and the diagnostics of the solver, and they never change
    parameters that are set. *)
Theorem estimators_leave_configuration (s s' : BigModel) fx p0 :
  final_state (resample s) = Some s' \/
  final_state (_logv s) = Some s' \/
  final_state (lognormconst s) = Some s' \/
  final_state (estimate s) = Some s' \/
  final_state (expectations s) = Some s' \/
  final_state (logpdf fx p0 s) = Some s' \/
  final_state (pdf fx s) = Some s' ->
  cfg s' = cfg s /\ K s' = K s /\ priorlogprobs s' = priorlogprobs s /\
  samplegen s' = samplegen s /\ tst s' = tst s /\
  nosignswitch s' = nosignswitch s /\ SAerror s' = SAerror s /\
  (forall theta, params s = Some theta -> params s' = Some theta).
Proof.
  intros H.
  assert (Hf : estimator_frame s s').
  { destruct H as [H|[H|[H|[H|[H|[H|H]]]]]].
    - eapply resample_keeps; eassumption.
    - eapply logv_keeps; eassumption.
    - eapply lognormconst_keeps; eassumption.
    - eapply estimate_keeps; eassumption.
    - eapply expectations_keeps; eassumption.
    - eapply logpdf_keeps; eassumption.
    - eapply pdf_keeps; eassumption. }
  destruct Hf as (Hp & HK & Hpr & Hg & Hc & Ht & Hn & Hs). auto 10.
Qed.

Lemma estimators_leave_configuration_witness :
  exists s',
    final_state (estimate sa_model3) = Some s' /\
    cfg s' = cfg sa_model3 /\ tst s' = tst sa_model3 /\
    params s' = Some [1; 2].
Proof.
  assert (H : exists s', final_state (estimate sa_model3) = Some s')
    by (eexists; run_cbv; reflexivity).
  destruct H as (s' & H). exists s'. split; [exact H|].
  destruct (estimators_leave_configuration sa_model3 s' (fx1 []) None)
    as (Hc & _ & _ & _ & Ht & _ & _ & Hp); [auto|].
  split; [exact Hc|]. split; [exact Ht|]. apply Hp. reflexivity.
Defined.

(** ** The outcomes of [resample] *)

Lemma valid_logprobs_cases lp n : valid_logprobs lp n \/ ~ valid_logprobs lp n.
Proof.
  destruct lp as [v|A|v].
  - destruct (Nat.eq_dec (length v) n) as [E|E].
    + left. exists v. auto.
    + right. intros (w & Hw & Hl). inversion Hw; subst. contradiction.
  - right. intros (w & Hw & _). discriminate.
  - right. intros (w & Hw & _). discriminate.
Qed.

Lemma resample_final (s : BigModel) :
  let d := samplegen s (drawn s) in
  exists s',
    (resample s = Returns tt s' /\ cch s' = no_cache
     \/
     (resample s = Raises DimensionMismatchError s' \/
      resample s = Raises ShapeError s') /\ cch s' = cch s) /\
    drawn s' = S (drawn s) /\
    smp s' = stored (samplegen s) (drawn s) /\
    params s' = Some (match params s with
                      | Some theta => theta
                      | None => zeros (nrows (draw_F d))
                      end).
Proof.
  intros d.
  destruct (resample_cases s) as (Hnone & Hbad & Hgood). fold d in Hnone, Hbad, Hgood.
  destruct (valid_logprobs_cases (draw_logprobs d) (ncols (draw_F d))) as [Hv|Hv];
    destruct (params s) as [theta|] eqn:Hp.
  - destruct (Nat.eq_dec (length theta) (nrows (draw_F d))) as [E|E].
    + destruct (Hgood theta eq_refl E) as [H _].
      eexists. split; [left; split; [exact (H Hv)|]|]; cbn; auto.
    + eexists. split; [right; split; [left; exact (Hbad theta eq_refl E)|]|]; cbn; auto.
  - destruct (Hnone eq_refl) as [H _].
    eexists. split; [left; split; [exact (H Hv)|]|]; cbn; auto.
  - destruct (Nat.eq_dec (length theta) (nrows (draw_F d))) as [E|E].
    + destruct (Hgood theta eq_refl E) as [_ H].
      eexists. split; [right; split; [right; exact (H Hv)|]|]; cbn; auto.
    + eexists. split; [right; split; [left; exact (Hbad theta eq_refl E)|]|]; cbn; auto.
  - destruct (Hnone eq_refl) as [_ H].
    eexists. split; [right; split; [right; exact (H Hv)|]|]; cbn; auto.
Qed.

Lemma resample_final_state s s' :
  final_state (resample s) = Some s' ->
  drawn s' = S (drawn s) /\ smp s' = stored (samplegen s) (drawn s) /\
  (forall theta, params s = Some theta -> params s' = Some theta) /\
  (resample s = Returns tt s' /\ cch s' = no_cache \/
   (exists e, resample s = Raises e s') /\ cch s' = cch s).
Proof.
  intros H. destruct (resample_final s) as (s2 & Hout & Hd & Hs & Hp).
  assert (s2 = s') as ->.
  { destruct Hout as [[Hr _]|[[Hr|Hr] _]]; rewrite Hr in H; inversion H; reflexivity. }
  split; [exact Hd|]. split; [exact Hs|]. split.
  - intros theta Ht. rewrite Hp, Ht. reflexivity.
  - destruct Hout as [[Hr Hc]|[[Hr|Hr] Hc]]; [left|right|right]; split; eauto.
Qed.



(** ** Memoisation *)

Lemma expectations_caches s m s1 :
  expectations s = Returns m s1 -> mu (cch s1) = Some m.
Proof.
  intros H. unfold expectations in H. run_inv H as c s0 Hc.
  inversion Hc; subst. destruct (mu (cch s0)) as [m0|] eqn:E.
  - inversion H; subst. exact E.
  - run_inv H as u s2 He. apply attr_Returns in H. destruct H as [H ->]. exact H.
Qed.

Lemma expectations_cached s m : mu (cch s) = Some m -> expectations s = Returns m s.
Proof. intros H. cbv [expectations bind gets ret]. rewrite H. reflexivity. Qed.

(** X3. The estimators memoise: once [_logv], [lognormconst] or
    [expectations] has returned, a further call returns the same value and
    leaves the object as it is.  For [expectations] this holds whatever the
    settings are: with [staticsample] off or several trials configured the
    second call still answers from the cache and draws no new sample. *)
Theorem estimators_memoise (s s1 : BigModel) :
  (forall v, _logv s = Returns v s1 -> _logv s1 = Returns v s1) /\
  (forall z, lognormconst s = Returns z s1 -> lognormconst s1 = Returns z s1) /\
  (forall m, expectations s = Returns m s1 -> expectations s1 = Returns m s1).
Proof.
  split; [|split].
  - intros v H. apply logv_cached. eapply logv_caches; eassumption.
  - intros z H. apply lognormconst_cached. eapply lognormconst_caches; eassumption.
  - intros m H. apply expectations_cached. eapply expectations_caches; eassumption.
Qed.

Lemma estimators_memoise_witness :
  exists m s1,
    expectations model3 = Returns m s1 /\ expectations s1 = Returns m s1.
Proof.
  assert (H : exists m s1, expectations model3 = Returns m s1)
    by (eexists; eexists; run_cbv; reflexivity).
  destruct H as (m & s1 & H). exists m, s1. split; [exact H|].
  destruct (estimators_memoise model3 s1) as (_ & _ & He).
  apply He. exact H.
Defined.

(** ** Before the first sample, and after a rejected one *)



(** X5. On an object that has no sample yet (as [__init__] leaves it: static
    sample, one trial, nothing cached, no external selector), every estimator
    raises AttributeError for the missing [sampleF] and [_check_features]
    raises its own; none of them changes the object or touches the
    generator. *)
Theorem estimators_need_a_sample (s : BigModel) fx p0 :
  smp s = mkSample None None None -> cch s = no_cache ->
  external (tst s) = None ->
  staticsample (cfg s) = true -> matrixtrials (cfg s) = 1%Z ->
  _logv s = Raises (AttributeError "sampleF") s /\
  lognormconst s = Raises (AttributeError "sampleF") s /\
  estimate s = Raises (AttributeError "sampleF") s /\
  expectations s = Raises (AttributeError "sampleF") s /\
  logpdf fx p0 s = Raises (AttributeError "sampleF") s /\
  pdf fx s = Raises (AttributeError "sampleF") s /\
  _check_features s =
    Raises (AttributeError "first specify a sample feature matrix using setfeatures()") s.
Proof.
  intros Hs Hc He Hst HT.
  destruct s as [p K0 pr g dr sm c cf t ns sa]. cbn in Hs, Hc, He, Hst, HT. subst sm c.
  destruct t as [ex se ed eg bd bp it]. cbn in He. subst ex.
  destruct cf as [T st dey rate ext rup andr hold a0 mi plc]. cbn in Hst, HT. subst T st.
  repeat split; reflexivity.
Qed.

Lemma estimators_need_a_sample_witness :
  estimate (new_BigModel gen3 [1; 1] 3) =
    Raises (AttributeError "sampleF") (new_BigModel gen3 [1; 1] 3) /\
  logpdf (fx1 [1; 0]) None (new_BigModel gen3 [1; 1] 3) =
    Raises (AttributeError "sampleF") (new_BigModel gen3 [1; 1] 3).
Proof.
  destruct (estimators_need_a_sample (new_BigModel gen3 [1; 1] 3) (fx1 [1; 0]) None)
    as (_ & _ & He & _ & Hl & _); try reflexivity.
  split; assumption.
Defined.

(** ** The sample and the generator *)

Lemma sampling_frame_refl s : sampling_frame s s.
Proof. unfold sampling_frame. auto. Qed.

Lemma sampling_frame_trans s1 s2 s3 :
  sampling_frame s1 s2 -> sampling_frame s2 s3 -> sampling_frame s1 s3.
Proof.
  unfold sampling_frame. intros (Hg1 & H1) (Hg2 & H2). split; [congruence|].
  destruct H1 as [(Hd1 & Hs1)|(Hd1 & Hs1)]; destruct H2 as [(Hd2 & Hs2)|(Hd2 & Hs2)].
  - left. split; congruence.
  - right. split; [lia|]. rewrite Hs2, Hg1. reflexivity.
  - right. split; [lia|]. rewrite Hs2, Hd2. exact Hs1.
  - right. split; [lia|]. rewrite Hs2, Hg1. reflexivity.
Qed.

Lemma sampling_frame_cache f s : sampling_frame s (set_cch f s).
Proof. unfold sampling_frame. cbn. auto. Qed.

Ltac smp_keeps :=
  repeat first
    [ keeps_step sampling_frame_refl sampling_frame_trans
    | assumption
    | match goal with H : _ |- keeps _ _ => apply H end
    | apply keeps_modify; intros ?; apply sampling_frame_cache ].

Lemma resample_sampling : keeps sampling_frame resample.
Proof.
  intros s s' H. pose proof (resample_keeps s s' H) as (_ & _ & _ & Hg & _).
  apply resample_final_state in H. destruct H as (Hd & Hs & _).
  split; [exact Hg|]. right. split; [lia|]. rewrite Hd. exact Hs.
Qed.

Lemma logv_sampling : keeps sampling_frame _logv.
Proof. unfold _logv, as_vec. smp_keeps. Qed.

Lemma lognormconst_sampling : keeps sampling_frame lognormconst.
Proof. pose proof logv_sampling. unfold lognormconst. smp_keeps. Qed.

Lemma activeF_sampling : keeps sampling_frame activeF.
Proof. unfold activeF. smp_keeps. Qed.

Lemma trial_sampling : keeps sampling_frame trial.
Proof.
  pose proof logv_sampling. pose proof lognormconst_sampling.
  pose proof resample_sampling. pose proof activeF_sampling.
  unfold trial, div_by_len. smp_keeps.
Qed.

Lemma trials_sampling t mus logZs : keeps sampling_frame (trials t mus logZs).
Proof.
  pose proof trial_sampling.
  revert mus logZs. induction t as [|t IH]; intros mus logZs; cbn [trials]; smp_keeps.
Qed.

Lemma aggregate_sampling mus logZs : keeps sampling_frame (aggregate mus logZs).
Proof. unfold aggregate. smp_keeps. Qed.

Lemma estimate_sampling : keeps sampling_frame estimate.
Proof.
  pose proof trials_sampling. pose proof aggregate_sampling.
  unfold estimate. smp_keeps.
Qed.

Lemma expectations_sampling : keeps sampling_frame expectations.
Proof. pose proof estimate_sampling. unfold expectations. smp_keeps. Qed.

Ltac cch_keeps :=
  repeat first
    [ keeps_step cache_frame_refl cache_frame_trans
    | assumption
    | match goal with H : _ |- keeps _ _ => apply H end
    | apply keeps_modify; intros ?; unfold cache_frame; reflexivity ].

Lemma logv_cache_keeps : keeps cache_frame _logv.
Proof. unfold _logv, as_vec. cch_keeps. Qed.

Lemma lognormconst_cache_keeps : keeps cache_frame lognormconst.
Proof. pose proof logv_cache_keeps. unfold lognormconst. cch_keeps. Qed.

Lemma logpdf_cache_keeps fx p0 : keeps cache_frame (logpdf fx p0).
Proof. pose proof lognormconst_cache_keeps. unfold logpdf. cch_keeps. Qed.

Lemma aggregate_cache_keeps mus logZs : keeps cache_frame (aggregate mus logZs).
Proof. unfold aggregate. cch_keeps. Qed.

Lemma activeF_cache_keeps : keeps cache_frame activeF.
Proof. unfold activeF. cch_keeps. Qed.

(** X6. The current sample is always one whole item of the generator: after
    any outcome of an estimator, returning or raising, the generator is the
    same, and either no item was taken and the stored triple (feature
    matrix, log-probabilities, points) is the one of before, or items were
    taken and the stored triple is the last item taken.  [_logv],
    [lognormconst] and [logpdf] never take an item. *)
Theorem sample_is_last_item_drawn (s s' : BigModel) fx p0 :
  (final_state (estimate s) = Some s' \/ final_state (expectations s) = Some s' ->
   sampling_frame s s') /\
  (final_state (_logv s) = Some s' \/ final_state (lognormconst s) = Some s' \/
   final_state (logpdf fx p0 s) = Some s' ->
   samplegen s' = samplegen s /\ drawn s' = drawn s /\ smp s' = smp s).
Proof.
  split.
  - intros [H|H]; [eapply estimate_sampling | eapply expectations_sampling]; exact H.
  - intros H.
    assert (Hc : cache_frame s s').
    { destruct H as [H|[H|H]].
      - eapply logv_cache_keeps; exact H.
      - eapply lognormconst_cache_keeps; exact H.
      - eapply logpdf_cache_keeps; exact H. }
    unfold cache_frame in Hc. rewrite Hc. cbn. auto.
Qed.

Lemma sample_is_last_item_drawn_witness :
  exists s',
    final_state (estimate sa_model3) = Some s' /\ sampling_frame sa_model3 s'.
Proof.
  assert (H : exists s', final_state (estimate sa_model3) = Some s')
    by (eexists; run_cbv; reflexivity).
  destruct H as (s' & H). exists s'. split; [exact H|].
  apply (sample_is_last_item_drawn sa_model3 s' (fx1 []) None). left. exact H.
Defined.

(** ** How many samples [estimate] draws *)

(** Whether a trial of [estimate] draws a new sample. *)
Lemma trial_draws s r s1 :
  trial s = Returns r s1 ->
  drawn s1 = (drawn s + if negb (staticsample (cfg s)) || (matrixtrials (cfg s) >? 1)%Z
                        then 1 else 0)%nat /\
  (negb (staticsample (cfg s)) || (matrixtrials (cfg s) >? 1)%Z = false -> smp s1 = smp s).
Proof.
  intros H. unfold trial in H. run_inv H as c s0 Hc. inversion Hc; subst c s0. clear Hc.
  run_inv H as u s2 Hre.
  assert (Hrest : drawn s1 = drawn s2 /\ smp s1 = smp s2).
  { assert (Hf : cache_frame s2 s1).
    { assert (E : final_state
        ((v <- _logv ;; logZ <- lognormconst ;; F <- activeF ;;
          averages <- lift (matvec F (map exp (map (fun x => x - logZ) v))) ;;
          averages <- div_by_len averages (length v) ;; ret (averages, logZ)) s2) = Some s1)
        by (rewrite H; reflexivity).
      clear H. revert E. generalize s2 s1.
      change (keeps cache_frame
        (v <- _logv ;; logZ <- lognormconst ;; F <- activeF ;;
          averages <- lift (matvec F (map exp (map (fun x => x - logZ) v))) ;;
          averages <- div_by_len averages (length v) ;; ret (averages, logZ))).
      pose proof logv_cache_keeps. pose proof lognormconst_cache_keeps.
      pose proof activeF_cache_keeps. unfold div_by_len. cch_keeps. }
    unfold cache_frame in Hf. rewrite Hf. cbn. auto. }
  destruct Hrest as [Hd Hs]. rewrite Hd, Hs.
  destruct (negb (staticsample (cfg s)) || (matrixtrials (cfg s) >? 1)%Z).
  - assert (Hfin : final_state (resample s) = Some s2) by (rewrite Hre; reflexivity).
    apply resample_final_state in Hfin. destruct Hfin as (Hd2 & _).
    split; [lia | discriminate].
  - inversion Hre; subst. split; [lia | auto].
Qed.

Lemma trials_draws t : forall mus logZs s r s1,
  trials t mus logZs s = Returns r s1 ->
  drawn s1 = (drawn s + if negb (staticsample (cfg s)) || (matrixtrials (cfg s) >? 1)%Z
                        then t else 0)%nat /\
  (negb (staticsample (cfg s)) || (matrixtrials (cfg s) >? 1)%Z = false -> smp s1 = smp s) /\
  length (fst r) = (length mus + t)%nat.
Proof.
  induction t as [|t IH]; intros mus logZs s r s1 H; cbn [trials] in H.
  - inversion H; subst. cbn. split; [|split]; auto.
    destruct (negb _ || _); lia.
  - run_inv H as r0 s0 Ht.
    pose proof (trial_frame _ _ _ Ht) as (_ & _ & _ & _ & Hcfg & _).
    apply trial_draws in Ht. destruct Ht as [Hd0 Hs0].
    apply IH in H. destruct H as (Hd & Hs & Hl). rewrite Hcfg in Hd, Hs.
    rewrite Hl, length_app. cbn [length].
    split; [|split]; [|intros E; rewrite (Hs E); auto|lia].
    rewrite Hd, Hd0. destruct (negb _ || _); lia.
Qed.

Lemma estimate_draws s s' :
  estimate s = Returns tt s' ->
  matrixtrials (cfg s) = 1%Z /\
  if staticsample (cfg s)
  then drawn s' = drawn s /\ smp s' = smp s
  else drawn s' = S (drawn s) /\ smp s' = stored (samplegen s) (drawn s).
Proof.
  intros H.
  assert (Hfin : final_state (estimate s) = Some s') by (rewrite H; reflexivity).
  apply estimate_sampling in Hfin.
  destruct (estimate_single_trial s s' H) as (HT & _).
  split; [exact HT|].
  unfold estimate in H. run_inv H as T s0 HT0. inversion HT0; subst T s0. clear HT0.
  run_inv H as r s1 Htr. apply trials_draws in Htr. destruct Htr as (Hd & Hs & Hl).
  assert (Hagg : final_state (aggregate (fst r) (snd r) s1) = Some s')
    by (rewrite H; reflexivity).
  apply aggregate_cache_keeps in Hagg. unfold cache_frame in Hagg.
  assert (Hd' : drawn s' = drawn s1) by (rewrite Hagg; reflexivity).
  assert (Hs' : smp s' = smp s1) by (rewrite Hagg; reflexivity).
  rewrite HT in Hd, Hs. change (Z.to_nat 1) with 1%nat in Hd.
  change (1 >? 1)%Z with false in Hd, Hs. rewrite orb_false_r in Hd, Hs.
  destruct (staticsample (cfg s)); cbn [negb] in Hd, Hs.
  - split; [lia | rewrite Hs'; auto].
  - assert (Hd1 : drawn s' = S (drawn s)) by lia. split; [exact Hd1|].
    destruct Hfin as (_ & [(Hx & _)|(_ & Hx)]); [lia|]. rewrite Hx, Hd1. reflexivity.
Qed.

Lemma estimate_several_draws s r s2 :
  (1 < matrixtrials (cfg s))%Z ->
  trials (Z.to_nat (matrixtrials (cfg s))) [] [] s = Returns r s2 ->
  exists s',
    estimate s = Raises (NameError "columnvariances") s' /\
    drawn s' = (drawn s + Z.to_nat (matrixtrials (cfg s)))%nat /\
    smp s' = stored (samplegen s) (pred (drawn s')).
Proof.
  intros HT Htr.
  assert (Hfin : final_state (trials (Z.to_nat (matrixtrials (cfg s))) [] [] s) = Some s2)
    by (rewrite Htr; reflexivity).
  apply trials_sampling in Hfin.
  pose proof (trials_draws _ _ _ _ _ _ Htr) as (Hd & _ & Hl).
  assert (Hb : negb (staticsample (cfg s)) || (matrixtrials (cfg s) >? 1)%Z = true).
  { apply orb_true_iff. right. apply Z.gtb_lt. lia. }
  rewrite Hb in Hd. cbn [length Nat.add] in Hl.
  destruct (trials_chain _ _ _ _ _ _ Htr) as (rs & _ & Hlen & _ & Hz). cbn [app] in Hz.
  eexists. split; [|split].
  - unfold estimate. cbv [bind gets]. rewrite Htr. apply aggregate_pools.
    + rewrite Hl. lia.
    + rewrite Hz. destruct rs; [cbn in Hlen; lia | discriminate].
  - cbn. exact Hd.
  - cbn. destruct Hfin as (_ & [(Hx & _)|(_ & Hx)]); [lia | exact Hx].
Qed.

(** X7. How many samples [estimate] draws.  It returns only with one trial
    configured: then it draws no sample when [staticsample] is on (the
    stored sample stays), and one otherwise, which becomes the current
    sample.  With several trials configured it draws one sample per trial,
    also when [staticsample] is on: when the trials have run, the call has
    taken [matrixtrials] items from the generator, the last one is the
    current sample, and it ends in the NameError of the unbound
    [columnvariances]. *)
Theorem estimate_draw_count (s : BigModel) :
  (forall s', estimate s = Returns tt s' ->
     matrixtrials (cfg s) = 1%Z /\
     if staticsample (cfg s)
     then drawn s' = drawn s /\ smp s' = smp s
     else drawn s' = S (drawn s) /\ smp s' = stored (samplegen s) (drawn s)) /\
  ((1 < matrixtrials (cfg s))%Z ->
   forall r s2,
     trials (Z.to_nat (matrixtrials (cfg s))) [] [] s = Returns r s2 ->
     exists s',
       estimate s = Raises (NameError "columnvariances") s' /\
       drawn s' = (drawn s + Z.to_nat (matrixtrials (cfg s)))%nat /\
       smp s' = stored (samplegen s) (pred (drawn s'))).
Proof.
  split.
  - intros s' H. exact (estimate_draws s s' H).
  - intros HT r s2 Htr. exact (estimate_several_draws s r s2 HT Htr).
Qed.

Lemma estimate_draw_count_witness :
  exists s',
    estimate sa_model3 = Raises (NameError "columnvariances") s' /\ drawn s' = 2%nat.
Proof.
  assert (H : exists r s2, trials 2 [] [] sa_model3 = Returns r s2)
    by (eexists; eexists; run_cbv; reflexivity).
  destruct H as (r & s2 & H).
  destruct (estimate_draw_count sa_model3) as [_ HT].
  destruct (HT ltac:(cbn; lia) r s2 H) as (s' & He & Hd & _).
  exists s'. split; [exact He | exact Hd].
Defined.

(** X8. With no trial configured ([matrixtrials <= 0]) the loop of
    [estimate] does not run and the pooling of an empty list of
    log-partition estimates raises ValueError; the object is left as it was:
    no sample is drawn and nothing is stored. *)
Theorem estimate_without_trials (s : BigModel) :
  (matrixtrials (cfg s) <= 0)%Z ->
  estimate s =
    Raises (ValueError "zero-size array to reduction operation maximum which has no identity") s.
Proof.
  intros H. unfold estimate. cbv [bind gets].
  assert (E : Z.to_nat (matrixtrials (cfg s)) = 0%nat) by lia.
  rewrite E. reflexivity.
Qed.

Lemma estimate_without_trials_witness :
  estimate (set_matrixtrials 0 model3) =
    Raises (ValueError "zero-size array to reduction operation maximum which has no identity")
           (set_matrixtrials 0 model3).
Proof. apply estimate_without_trials. cbn. lia. Defined.

(** ** The density on arrays of feature vectors *)

Lemma nth_map_default (f : R -> R) (w : vec) j :
  (j < length w)%nat -> nth j (map f w) 0 = f (nth j w 0).
Proof.
  intros H. rewrite (nth_indep _ 0 (f 0)) by (rewrite length_map; exact H).
  apply map_nth.
Qed.

Lemma column_length A j : length (column A j) = nrows A.
Proof. unfold column. rewrite length_map, length_seq. reflexivity. Qed.

Lemma lognormconst_params s z s1 theta :
  lognormconst s = Returns z s1 -> params s = Some theta -> params s1 = Some theta.
Proof.
  intros H Hp. apply lognormconst_frame in H. destruct H as (Hk & _). auto.
Qed.

Lemma logpdf_2d s theta A r s1 :
  params s = Some theta ->
  logpdf (fx2 A) None s = Returns r s1 ->
  nrows A = length theta /\
  exists z w, lognormconst s = Returns z s1 /\ r = Array w /\ length w = ncols A /\
    forall j, (j < ncols A)%nat -> nth j w 0 = dotR theta (column A j) - z.
Proof.
  intros Hp H. unfold logpdf in H. run_inv H as z s0 Hz.
  pose proof (lognormconst_params _ _ _ _ Hz Hp) as Hp0.
  run_inv H as r0 s2 Hr. inversion H; subst r0 s2. clear H.
  run_inv Hr as th s3 Ha. apply attr_Returns in Ha. destruct Ha as [Ha ->].
  rewrite Hp0 in Ha. inversion Ha; subst th. clear Ha.
  run_inv Hr as w s4 Hw. apply lift_Returns in Hw. destruct Hw as [Hw ->].
  inversion Hr; subst r s1. clear Hr.
  pose proof (innerprodtranspose_rows _ _ _ Hw) as Hrows.
  destruct (innerprodtranspose_entry A theta (eq_sym Hrows)) as (w' & Hw' & Hlen & Hent).
  rewrite Hw in Hw'. inversion Hw'; subst w'. clear Hw'.
  split; [exact Hrows|]. exists z, (map (fun x => x - z) w).
  split; [exact Hz|]. split; [reflexivity|]. split; [rewrite length_map; exact Hlen|].
  intros j Hj. rewrite nth_map_default by (rewrite Hlen; exact Hj).
  rewrite (Hent j Hj). reflexivity.
Qed.

(** X9. On a 2-d array [logpdf] takes the feature vectors from the columns:
    it returns only when the array has one row per parameter, and then gives
    one value per column, the value at column [j] being what [logpdf]
    returns on the 1-d array [fx[:, j]], with the same estimate of log Z and
    the same object left behind.  (The docstring speaks of rows.) *)
Theorem logpdf_2d_by_columns (s : BigModel) theta A r s1 :
  params s = Some theta ->
  logpdf (fx2 A) None s = Returns r s1 ->
  nrows A = length theta /\
  exists w, r = Array w /\ length w = ncols A /\
    forall j, (j < ncols A)%nat ->
      logpdf (fx1 (column A j)) None s = Returns (Scalar (nth j w 0)) s1.
Proof.
  intros Hp H. destruct (logpdf_2d s theta A r s1 Hp H) as (Hrows & z & w & Hz & Hr & Hlen & Hent).
  split; [exact Hrows|]. exists w. split; [exact Hr|]. split; [exact Hlen|].
  intros j Hj. rewrite (Hent j Hj).
  apply logpdf_returns; [exact Hp | rewrite column_length; auto | exact Hz].
Qed.

Lemma logpdf_2d_by_columns_witness :
  exists w s1,
    logpdf (fx2 F3) None model3 = Returns (Array w) s1 /\
    logpdf (fx1 [1; 0]) None model3 = Returns (Scalar (nth 0 w 0)) s1.
Proof.
  assert (H : exists r s1, logpdf (fx2 F3) None model3 = Returns r s1)
    by (eexists; eexists; run_cbv; reflexivity).
  destruct H as (r & s1 & H).
  destruct (logpdf_2d_by_columns model3 [1; 2] F3 r s1 eq_refl H) as (_ & w & Hr & _ & Hc).
  exists w, s1. subst r. split; [exact H|].
  apply (Hc 0%nat). cbn. lia.
Defined.

(** ** The density as a function *)

Lemma pdf_function_inv s p s1 :
  pdf_function s = Returns p s1 ->
  exists z, lognormconst s = Returns z s1 /\
    p = (fun fx => theta <- attr "params" params ;;
                   w <- lift (innerprodtranspose fx theta) ;;
                   ret (map (fun x => exp (x - z)) w)).
Proof.
  intros H. unfold pdf_function in H. run_inv H as z s0 Hz.
  inversion H; subst. exists z. auto.
Qed.

(** X10. The function that [pdf_function] returns keeps the estimate of
    log Z of the moment it was made and reads the parameters each time it is
    called.  Called on the object as [pdf_function] left it, it is
    [pdf] on 2-d arrays, outcome for outcome.  Called after the parameters
    were changed to [theta'] (or the sample redrawn), it returns
    [exp(theta' . fx[:, j] - logZ)] with the old log Z: the new parameters
    under the normalisation of the old ones.  It never changes the
    object. *)
Theorem pdf_function_freezes_logZ (s : BigModel) p s1 :
  pdf_function s = Returns p s1 ->
  exists z,
    lognormconst s = Returns z s1 /\
    (forall A,
       pdf (fx2 A) s = match p A s1 with
                       | Returns w s2 => Returns (Array w) s2
                       | Raises e s2 => Raises e s2
                       | Unmodelled => Unmodelled
                       end) /\
    (forall s2 theta' A,
       params s2 = Some theta' -> nrows A = length theta' ->
       exists w, p A s2 = Returns w s2 /\ length w = ncols A /\
         forall j, (j < ncols A)%nat ->
           nth j w 0 = exp (dotR theta' (column A j) - z)) /\
    (forall s2 A s3, final_state (p A s2) = Some s3 -> s3 = s2).
Proof.
  intros H. destruct (pdf_function_inv s p s1 H) as (z & Hz & ->).
  exists z. split; [exact Hz|]. split; [|split].
  - intros A. unfold pdf, logpdf.
    rewrite (bind_run _ _ _ _ _ (bind_run _ _ _ _ _ Hz)) || idtac.
    cbv [bind]. rewrite Hz. cbv [attr]. destruct (params s1) as [theta|]; [|reflexivity].
    cbv [lift]. destruct (innerprodtranspose A theta) as [e|w]; [reflexivity|].
    cbv [ret raise np_exp]. rewrite map_map. reflexivity.
  - intros s2 theta' A Hp Hrows.
    destruct (innerprodtranspose_entry A theta' (eq_sym Hrows)) as (w & Hw & Hlen & Hent).
    exists (map (fun x => exp (x - z)) w).
    cbv [bind attr]. rewrite Hp. rewrite Hw. cbv [lift ret].
    split; [reflexivity|]. split; [rewrite length_map; exact Hlen|].
    intros j Hj. rewrite nth_map_default by (rewrite Hlen; exact Hj).
    rewrite (Hent j Hj). reflexivity.
  - intros s2 A s3. cbv [bind attr]. destruct (params s2) as [theta|].
    + cbv [lift]. destruct (innerprodtranspose A theta); cbn; intros E; inversion E; reflexivity.
    + cbn. intros E; inversion E; reflexivity.
Qed.

Lemma pdf_function_freezes_logZ_witness :
  exists p s1 z w,
    pdf_function model3 = Returns p s1 /\ lognormconst model3 = Returns z s1 /\
    p F3 (set_params (Some [0; 0]) s1) = Returns w (set_params (Some [0; 0]) s1) /\
    nth 0 w 0 = exp (dotR [0; 0] (column F3 0) - z).
Proof.
  assert (H : exists p s1, pdf_function model3 = Returns p s1)
    by (eexists; eexists; run_cbv; reflexivity).
  destruct H as (p & s1 & H).
  destruct (pdf_function_freezes_logZ model3 p s1 H) as (z & Hz & _ & Hcall & _).
  destruct (Hcall (set_params (Some [0; 0]) s1) [0; 0] F3 eq_refl eq_refl)
    as (w & Hw & _ & Hent).
  exists p, s1, z, w. split; [exact H|]. split; [exact Hz|]. split; [exact Hw|].
  apply (Hent 0%nat). cbn. lia.
Defined.

(** ** Setting up the generator *)

Lemma feature_sampler_item features aux i xs lq :
  aux i = (xs, lq) -> feature_sampler features aux i = mkDraw (features xs) lq xs.
Proof. unfold feature_sampler. intros ->. reflexivity. Qed.

Lemma feature_sampler_features features aux i :
  draw_F (feature_sampler features aux i) =
  features (draw_xs (feature_sampler features aux i)).
Proof. unfold feature_sampler. destruct (aux i). reflexivity. Qed.

Lemma setfeatures_resample aux features s :
  setfeatures aux features s =
  resample (set_samplegen (feature_sampler features aux) s).
Proof. reflexivity. Qed.

Lemma setfeatures_final aux features s s' :
  final_state (setfeatures aux features s) = Some s' ->
  samplegen s' = feature_sampler features aux /\ drawn s' = S (drawn s) /\
  smp s' = stored (feature_sampler features aux) (drawn s) /\
  features_of_sample features s' /\
  _check_features s' = Returns tt s'.
Proof.
  rewrite setfeatures_resample. intros H.
  pose proof (resample_keeps _ _ H) as (_ & _ & _ & Hg & _).
  pose proof (resample_final_state _ _ H) as (Hd & Hs & _).
  cbn [samplegen drawn set_samplegen] in Hg, Hd, Hs.
  split; [exact Hg|]. split; [exact Hd|]. split; [exact Hs|]. split.
  - intros F xs HF Hxs. rewrite Hs in HF, Hxs. cbn in HF, Hxs.
    inversion HF. inversion Hxs. apply feature_sampler_features.
  - cbv [_check_features bind gets ret]. rewrite Hs. reflexivity.
Qed.

Lemma setfeatures_returns aux features s xs lq :
  aux (drawn s) = (xs, lq) ->
  ncols (features xs) = length xs ->
  valid_logprobs lq (length xs) ->
  (forall theta, params s = Some theta -> length theta = nrows (features xs)) ->
  exists s',
    setfeatures aux features s = Returns tt s' /\
    smp s' = mkSample (Some (features xs)) (Some lq) (Some xs) /\
    cch s' = no_cache /\
    params s' = Some (match params s with
                      | Some theta => theta
                      | None => zeros (nrows (features xs))
                      end).
Proof.
  intros Haux Hcols Hv Hp. rewrite setfeatures_resample.
  set (s0 := set_samplegen (feature_sampler features aux) s).
  destruct (resample_final s0) as (s' & Hout & Hd & Hs & Hpar).
  cbn [samplegen drawn params set_samplegen s0] in Hs, Hpar.
  unfold stored in Hs. rewrite (feature_sampler_item _ _ _ _ _ Haux) in Hs, Hpar.
  cbn [draw_F draw_logprobs draw_xs] in Hs, Hpar.
  exists s'. destruct Hout as [[Hr Hc]|[Hr Hc]].
  - auto.
  - exfalso. destruct (resample_cases s0) as (Hnone & Hbad & Hgood).
    cbn [samplegen drawn params set_samplegen s0] in Hnone, Hbad, Hgood.
    rewrite (feature_sampler_item _ _ _ _ _ Haux) in Hnone, Hbad, Hgood.
    cbn [draw_F draw_logprobs draw_xs] in Hnone, Hbad, Hgood.
    rewrite Hcols in Hnone, Hgood.
    destruct (params s) as [theta|] eqn:E.
    + destruct (Hgood theta eq_refl (Hp theta eq_refl)) as [Hret _].
      rewrite (Hret Hv) in Hr. destruct Hr as [Hr|Hr]; discriminate.
    + destruct (Hnone eq_refl) as [Hret _].
      rewrite (Hret Hv) in Hr. destruct Hr as [Hr|Hr]; discriminate.
Qed.

(** X19. [setfeatures] replaces the generator by [feature_sampler] over the
    given feature function and the auxiliary sampler, and draws once,
    whatever the outcome: the stored feature matrix is the feature function
    on the stored points, and [_check_features] accepts the object.  It
    returns, with empty caches and, on an object without parameters, with
    [params = zeros(m)], when the sampler returns a 1-d array of one
    log-probability per point, the feature function gives one column per
    point, and parameters that are set are as many as its rows. *)
Theorem setfeatures_first_sample aux features (s : BigModel) xs lq :
  aux (drawn s) = (xs, lq) ->
  (forall s', final_state (setfeatures aux features s) = Some s' ->
     samplegen s' = feature_sampler features aux /\ drawn s' = S (drawn s) /\
     smp s' = mkSample (Some (features xs)) (Some lq) (Some xs) /\
     _check_features s' = Returns tt s') /\
  (ncols (features xs) = length xs ->
   valid_logprobs lq (length xs) ->
   (forall theta, params s = Some theta -> length theta = nrows (features xs)) ->
   exists s',
     setfeatures aux features s = Returns tt s' /\
     cch s' = no_cache /\
     params s' = Some (match params s with
                       | Some theta => theta
                       | None => zeros (nrows (features xs))
                       end)).
Proof.
  intros Haux. split.
  - intros s' H. apply setfeatures_final in H. destruct H as (Hg & Hd & Hs & _ & Hc).
    unfold stored in Hs. rewrite (feature_sampler_item _ _ _ _ _ Haux) in Hs.
    auto.
  - intros Hcols Hv Hp.
    destruct (setfeatures_returns aux features s xs lq Haux Hcols Hv Hp)
      as (s' & Hr & _ & Hc & Hpar).
    exists s'. auto.
Qed.

Lemma setfeatures_first_sample_witness :
  exists s',
    setfeatures aux3 features3 (new_BigModel gen_short [1; 1] 3) = Returns tt s' /\
    params s' = Some [0; 0].
Proof.
  destruct (setfeatures_first_sample aux3 features3 (new_BigModel gen_short [1; 1] 3)
              xs3 (ndarray1 logq3) eq_refl) as [_ H].
  destruct H as (s' & Hr & _ & Hp).
  - reflexivity.
  - exists logq3. split; reflexivity.
  - intros theta Ht. discriminate.
  - exists s'. split; [exact Hr | exact Hp].
Defined.

(** *** The feature matrix belongs to the stored points *)

Lemma sampling_frame_features features aux s s' :
  samplegen s = feature_sampler features aux ->
  features_of_sample features s -> sampling_frame s s' ->
  samplegen s' = feature_sampler features aux /\ features_of_sample features s'.
Proof.
  intros Hg Hf (Hg' & Hs). split; [congruence|].
  destruct Hs as [(_ & Hs)|(_ & Hs)]; intros F xs HF Hxs; rewrite Hs in HF, Hxs.
  - apply Hf; assumption.
  - rewrite Hg in HF, Hxs. cbn in HF, Hxs. inversion HF. inversion Hxs.
    apply feature_sampler_features.
Qed.

(** X20. With the generator that [setfeatures] installs, the stored feature
    matrix stays the feature function evaluated on the stored sample points
    through every outcome, returning or raising, of [resample], [estimate]
    and [expectations], and the generator stays the one installed. *)
Theorem features_match_sample features aux (s s' : BigModel) :
  samplegen s = feature_sampler features aux ->
  features_of_sample features s ->
  final_state (resample s) = Some s' \/ final_state (estimate s) = Some s' \/
  final_state (expectations s) = Some s' ->
  samplegen s' = feature_sampler features aux /\ features_of_sample features s'.
Proof.
  intros Hg Hf H. apply (sampling_frame_features features aux s s' Hg Hf).
  destruct H as [H|[H|H]].
  - eapply resample_sampling; exact H.
  - eapply estimate_sampling; exact H.
  - eapply expectations_sampling; exact H.
Qed.

Lemma features_match_sample_witness :
  exists s',
    resample (set_samplegen (feature_sampler features3 aux3) (new_BigModel gen3 [1; 1] 3))
      = Returns tt s' /\
    features_of_sample features3 s'.
Proof.
  assert (H : exists s',
             resample (set_samplegen (feature_sampler features3 aux3)
                                     (new_BigModel gen3 [1; 1] 3)) = Returns tt s')
    by (eexists; run_cbv; reflexivity).
  destruct H as (s' & H). exists s'. split; [exact H|].
  apply (features_match_sample features3 aux3
           (set_samplegen (feature_sampler features3 aux3) (new_BigModel gen3 [1; 1] 3)) s').
  - reflexivity.
  - intros F xs HF. discriminate.
  - left. rewrite H. reflexivity.
Defined.

(** ** [estimate] on a static sample *)

Lemma static_trial s r s1 :
  staticsample (cfg s) = true -> matrixtrials (cfg s) = 1%Z ->
  trial s = Returns r s1 ->
  cache_frame s s1 /\
  forall s2, cache_frame s1 s2 ->
    logv (cch s2) = logv (cch s1) -> logZapprox (cch s2) = logZapprox (cch s1) ->
    trial s2 = Returns r s2.
Proof.
  intros Hst HT H. unfold trial in H.
  run_inv H as c s0 Hc. inversion Hc; subst c s0. clear Hc.
  rewrite Hst, HT in H. cbn [negb orb Z.gtb Z.compare Pos.compare Pos.compare_cont] in H.
  run_inv H as u s0 Hu. inversion Hu; subst u s0. clear Hu.
  run_inv H as v s2 Hv. run_inv H as logZ s3 Hz. run_inv H as F s4 HF.
  pose proof (activeF_pure _ _ _ HF). subst s4.
  run_inv H as av s5 Hav. apply lift_Returns in Hav as [Hav ->].
  run_inv H as av' s6 Hdiv. inversion H; subst r s6. clear H.
  assert (Hs5 : s1 = s3).
  { unfold div_by_len in Hdiv. destruct (length v); [discriminate|]. now inversion Hdiv. }
  subst s1.
  pose proof (logv_caches _ _ _ Hv) as Hlv.
  pose proof (lognormconst_keeps_logv _ _ _ _ Hlv Hz) as Hlv3.
  pose proof (lognormconst_caches _ _ _ Hz) as Hlz.
  split.
  - eapply cache_frame_trans; [eapply logv_cache_frame | eapply lognormconst_cache_frame];
      eassumption.
  - intros s2' Hf Hv' Hz'. unfold trial. cbv [bind gets].
    assert (Hcfg : cfg s2' = cfg s).
    { unfold cache_frame in Hf. rewrite Hf. cbn.
      apply logv_cache_frame in Hv. apply lognormconst_cache_frame in Hz.
      unfold cache_frame in Hv, Hz. rewrite Hz. cbn. rewrite Hv. reflexivity. }
    rewrite Hcfg, Hst, HT. cbn [negb orb Z.gtb Z.compare Pos.compare Pos.compare_cont].
    cbv [ret]. rewrite (logv_cached s2' v) by congruence.
    rewrite (lognormconst_cached s2' logZ) by congruence.
    rewrite (activeF_cache_frame _ _ _ Hf HF). rewrite Hav. cbv [lift ret].
    unfold div_by_len in *. destruct (length v); [discriminate|].
    inversion Hdiv. reflexivity.
Qed.

Lemma estimate_single s :
  matrixtrials (cfg s) = 1%Z ->
  estimate s = match trial s with
               | Returns r s1 => aggregate [fst r] [snd r] s1
               | Raises e s1 => Raises e s1
               | Unmodelled => Unmodelled
               end.
Proof.
  intros HT. unfold estimate. cbv [bind gets]. rewrite HT.
  change (Z.to_nat 1) with 1%nat. cbn [trials]. cbv [bind].
  destruct (trial s); reflexivity.
Qed.

Lemma aggregate_single m z s :
  aggregate [m] [z] s =
  Returns tt (set_varE None (set_logZapprox (Some z) (set_mu (Some m) s))).
Proof. reflexivity. Qed.

(** X22. With a static sample and one trial [estimate] is idempotent: when
    it has returned, a further call returns as well and leaves the object
    exactly as the first call left it; no sample is drawn and the stored
    estimates are recomputed to the same values. *)
Theorem estimate_static_idempotent (s s' : BigModel) :
  staticsample (cfg s) = true -> matrixtrials (cfg s) = 1%Z ->
  estimate s = Returns tt s' -> estimate s' = Returns tt s'.
Proof.
  intros Hst HT H.
  pose proof (estimate_frame _ _ _ H) as (_ & _ & _ & _ & Hcfg & _).
  rewrite (estimate_single s HT) in H.
  rewrite (estimate_single s') by congruence.
  destruct (trial s) as [r s1|e s1|] eqn:Ht; try discriminate.
  destruct (static_trial s r s1 Hst HT Ht) as [Hf Hagain].
  apply trial_gives_result in Ht. destruct Ht as (F & v & _ & _ & Hz & _).
  rewrite aggregate_single in H. injection H as Hs'.
  rewrite (Hagain s').
  - rewrite aggregate_single. f_equal. rewrite <- Hs' at 2. rewrite <- Hs'. reflexivity.
  - rewrite <- Hs'. unfold cache_frame. reflexivity.
  - rewrite <- Hs'. reflexivity.
  - rewrite <- Hs'. cbn. rewrite Hz. reflexivity.
Qed.

Lemma estimate_static_idempotent_witness :
  exists s', estimate model3 = Returns tt s' /\ estimate s' = Returns tt s'.
Proof.
  assert (H : exists s', estimate model3 = Returns tt s')
    by (eexists; run_cbv; reflexivity).
  destruct H as (s' & H). exists s'. split; [exact H|].
  apply (estimate_static_idempotent model3 s'); [reflexivity | reflexivity | exact H].
Defined.

(** ** A sample without points *)

(** X24. [resample] accepts a sample of no points (a feature matrix with no
    column and an empty array of log-probabilities).  [lognormconst] then
    raises the ValueError of [logsumexp] on an empty array, before the
    logarithm of [n = 0] is taken, and leaves the empty weights cached. *)
Theorem lognormconst_on_empty_sample (s : BigModel) theta xs :
  let d := samplegen s (drawn s) in
  params s = Some theta -> length theta = nrows (draw_F d) ->
  ncols (draw_F d) = 0%nat -> draw_logprobs d = ndarray1 [] -> draw_xs d = xs ->
  external (tst s) = None -> priorlogprobs s = None ->
  exists s1,
    resample s = Returns tt s1 /\
    lognormconst s1 =
      Raises (ValueError "zero-size array to reduction operation maximum which has no identity")
             (set_logv (Some []) s1).
Proof.
  intros d Hp Hlen Hcols Hlp Hxs Hext Hprior.
  destruct (resample_cases s) as (_ & _ & Hgood). fold d in Hgood.
  destruct (Hgood theta Hp Hlen) as [Hret _].
  assert (Hv : valid_logprobs (draw_logprobs d) (ncols (draw_F d))).
  { exists []. rewrite Hcols. auto. }
  specialize (Hret Hv). eexists. split; [exact Hret|].
  set (s1 := set_cch (mkCache None None None None) (with_new_sample s)).
  destruct (logv_fresh s1 theta (draw_F d) [] None) as (v & Hrun & Hlv & _).
  - exact Hp.
  - unfold active_sample, s1, with_new_sample. cbn. rewrite Hext. fold d.
    rewrite Hlp, Hprior. reflexivity.
  - unfold well_shaped. rewrite Hcols. auto.
  - reflexivity.
  - rewrite Hcols in Hlv. destruct v; [|discriminate].
    unfold lognormconst. cbv [bind gets]. cbn [logZapprox cch s1 set_cch].
    fold s1. rewrite Hrun. reflexivity.
Qed.

Lemma lognormconst_on_empty_sample_witness :
  exists s1,
    resample (set_params (Some [1; 2]) (new_BigModel gen_empty [1; 1] 3)) = Returns tt s1 /\
    lognormconst s1 =
      Raises (ValueError "zero-size array to reduction operation maximum which has no identity")
             (set_logv (Some []) s1).
Proof.
  apply (lognormconst_on_empty_sample
           (set_params (Some [1; 2]) (new_BigModel gen_empty [1; 1] 3)) [1; 2] []);
    reflexivity.
Defined.

(** ** Self-normalisation of the importance weights *)

Lemma rsum_map_mult (c : R) (f : R -> R) (v : vec) :
  rsum (map (fun x => c * f x) v) = c * rsum (map f v).
Proof.
  induction v as [|a v IH]; unfold rsum in *; cbn [map fold_right]; [lra | rewrite IH; lra].
Qed.

Lemma rsum_exp_pos (v : vec) : v <> [] -> 0 < rsum (map exp v).
Proof.
  destruct v as [|a v]; [congruence|]. intros _. revert a.
  induction v as [|b v IH]; intros a; unfold rsum in *; cbn [map fold_right] in *.
  - pose proof (exp_pos a). lra.
  - pose proof (exp_pos a). specialize (IH b). lra.
Qed.

(** With [logZ = logsumexp(logv) - log(n)] the normalised weights
    [exp(logv_j - logZ)] add up to [n]. *)
Lemma normalised_weights (v : vec) :
  v <> [] ->
  rsum (map (fun x => exp (x - (logsumexp v - ln (INR (length v))))) v) = INR (length v).
Proof.
  intros Hv. pose proof (rsum_exp_pos v Hv) as HS.
  assert (Hn : 0 < INR (length v)).
  { apply lt_0_INR. destruct v; [congruence | cbn; lia]. }
  unfold logsumexp. set (S := rsum (map exp v)) in *. set (n := INR (length v)) in *.
  rewrite (map_ext _ (fun x => (n / S) * exp x)).
  - rewrite rsum_map_mult. fold S. field. lra.
  - intros x. replace (x - (ln S - ln n)) with (x + (ln n + - ln S)) by ring.
    rewrite !exp_plus, exp_Ropp, !exp_ln by assumption. field. lra.
Qed.

Lemma lognormconst_fresh_inv s z s' :
  logZapprox (cch s) = None -> lognormconst s = Returns z s' ->
  exists v s1,
    _logv s = Returns v s1 /\ v <> [] /\
    z = logsumexp v - ln (INR (length v)) /\ s' = set_logZapprox (Some z) s1.
Proof.
  intros Hc H. unfold lognormconst in H.
  run_inv H as c s0 H0. inversion H0; subst c s0. clear H0. rewrite Hc in H.
  run_inv H as v s1 Hv. run_inv H as lse s2 Hl. apply lift_Returns in Hl as [Hl ->].
  run_inv H as logn s3 Hn. apply lift_Returns in Hn as [Hn ->].
  run_inv H as u s4 Hm. inversion Hm; subst u s4. clear Hm. inversion H; subst z s'. clear H.
  exists v, s1. split; [exact Hv|].
  assert (Hne : v <> []) by (destruct v; [discriminate | congruence]).
  apply scipy_logsumexp_inr in Hl. subst lse.
  assert (logn = ln (INR (length v))) as ->.
  { unfold math_log in Hn. destruct (length v); [discriminate | now inversion Hn]. }
  auto.
Qed.

(** X26. The estimate of log Z normalises the weights it was computed from:
    when [lognormconst] computes its value (nothing cached for it) and
    returns [logZ], the cached weights [logv] are not empty and
    [sum_j exp(logv_j - logZ) = n], the number of sample points; that is,
    the estimated density ratios [p(x_j)/q(x_j)] average to 1 over the
    sample. *)
Theorem weights_are_normalised (s : BigModel) z s' :
  logZapprox (cch s) = None -> lognormconst s = Returns z s' ->
  exists v, logv (cch s') = Some v /\ v <> [] /\
            rsum (map (fun x => exp (x - z)) v) = INR (length v).
Proof.
  intros Hc H. destruct (lognormconst_fresh_inv s z s' Hc H) as (v & s1 & Hv & Hne & Hz & Hs).
  exists v. split; [|split; [exact Hne|]].
  - rewrite Hs. cbn. eapply logv_caches; exact Hv.
  - rewrite Hz. apply normalised_weights. exact Hne.
Qed.

Lemma weights_are_normalised_witness :
  exists z s' v,
    lognormconst model3 = Returns z s' /\ logv (cch s') = Some v /\
    rsum (map (fun x => exp (x - z)) v) = INR (length v).
Proof.
  assert (H : exists z s', lognormconst model3 = Returns z s')
    by (eexists; eexists; run_cbv; reflexivity).
  destruct H as (z & s' & H).
  destruct (weights_are_normalised model3 z s' eq_refl H) as (v & Hv & _ & Hsum).
  exists z, s', v. auto.
Defined.

(** ** The estimates lie within the range of the features *)

Lemma logv_only_refl s : logv_only s s.
Proof. unfold logv_only. destruct s as [? ? ? ? ? ? c ? ? ? ?]. destruct c. reflexivity. Qed.

Lemma logv_only_trans s1 s2 s3 : logv_only s1 s2 -> logv_only s2 s3 -> logv_only s1 s3.
Proof. unfold logv_only. intros H1 H2. rewrite H2, H1 at 1. reflexivity. Qed.

Lemma logv_only_logv : preserves logv_only _logv.
Proof.
  unfold _logv, as_vec.
  repeat first
    [ frame_step logv_only_refl logv_only_trans
    | apply preserves_modify; intros ?; unfold logv_only; reflexivity ].
Qed.

Lemma dotR_cons a u b w : dotR (a :: u) (b :: w) = a * b + dotR u w.
Proof. reflexivity. Qed.

Lemma dotR_bounds (r w : vec) (a b : R) :
  length r = length w ->
  (forall x, In x w -> 0 <= x) -> (forall x, In x r -> a <= x <= b) ->
  a * rsum w <= dotR r w <= b * rsum w.
Proof.
  revert w. induction r as [|x r IH]; intros [|y w] Hl Hw Hr; try discriminate.
  - cbn. unfold dotR. cbn. lra.
  - rewrite dotR_cons. cbn [rsum fold_right].
    assert (Hy : 0 <= y) by (apply Hw; now left).
    assert (Hx : a <= x <= b) by (apply Hr; now left).
    destruct (IH w) as [IH1 IH2].
    + now inversion Hl.
    + intros z Hz. apply Hw. now right.
    + intros z Hz. apply Hr. now right.
    + fold (rsum w). nra.
Qed.

(** A trial that computes its estimate of log Z: the estimate it returns is a
    weighted average with weights that add up to [n]. *)
Lemma trial_fresh s r s1 :
  staticsample (cfg s) = false \/ (1 < matrixtrials (cfg s))%Z \/ logZapprox (cch s) = None ->
  trial s = Returns r s1 ->
  exists F v,
    activeF s1 = Returns F s1 /\ ncols F = length v /\ v <> [] /\
    rsum (map (fun x => exp (x - snd r)) v) = INR (length v) /\
    fst r = map (fun i => dotR (row F i) (map (fun x => exp (x - snd r)) v) / INR (length v))
                (seq 0 (nrows F)).
Proof.
  intros Hfresh H. unfold trial in H.
  run_inv H as c s0 Hc. inversion Hc; subst c s0. clear Hc.
  run_inv H as u s0 Hre.
  assert (Hz0 : logZapprox (cch s0) = None).
  { destruct (negb (staticsample (cfg s)) || (matrixtrials (cfg s) >? 1)%Z) eqn:E.
    - destruct u. apply resample_clears in Hre. rewrite Hre. reflexivity.
    - inversion Hre; subst s0. apply orb_false_elim in E. destruct E as [E1 E2].
      destruct Hfresh as [Hf|[Hf|Hf]]; [rewrite Hf in E1; discriminate | lia | exact Hf]. }
  clear Hre. run_inv H as v s2 Hv.
  assert (Hz2 : logZapprox (cch s2) = None).
  { pose proof (logv_only_logv _ _ _ Hv) as Ho. unfold logv_only in Ho. rewrite Ho. exact Hz0. }
  pose proof (logv_caches _ _ _ Hv) as Hlv.
  run_inv H as logZ s3 Hz.
  destruct (lognormconst_fresh_inv _ _ _ Hz2 Hz) as (v' & s2' & Hv' & Hne & HlogZ & Hs3).
  rewrite (logv_cached s2 v Hlv) in Hv'. inversion Hv'; subst v' s2'. clear Hv'.
  run_inv H as F s4 HF. pose proof (activeF_pure _ _ _ HF). subst s4.
  run_inv H as av s5 Hav. apply lift_Returns in Hav as [Hav ->].
  run_inv H as av' s6 Hdiv. inversion H; subst r s6. clear H. cbn [fst snd].
  unfold matvec in Hav. rewrite !length_map in Hav.
  destruct (Nat.eqb_spec (ncols F) (length v)) as [Hcols|]; [|discriminate].
  inversion Hav; subst av. clear Hav.
  assert (Hlen : exists n0, length v = S n0)
    by (destruct v; [congruence | eexists; reflexivity]).
  destruct Hlen as [n0 En].
  unfold div_by_len in Hdiv. rewrite En in Hdiv. rewrite <- En in Hdiv.
  inversion Hdiv; subst av' s1. clear Hdiv.
  exists F, v. split; [exact HF|]. split; [exact Hcols|]. split; [exact Hne|].
  split.
  - rewrite HlogZ. apply normalised_weights. exact Hne.
  - rewrite !map_map. reflexivity.
Qed.

(** X27. With one trial, and the estimate of log Z computed by the call (the
    sample is redrawn, or no log Z was cached), [estimate] stores for every
    feature a weighted average of its values on the sample, with positive
    weights that add up to 1: each [mu_i] lies between the smallest and the
    largest value of feature [i] on the sample, whatever the parameters and
    the auxiliary log-probabilities are.  In particular a feature that is
    constant on the sample is estimated exactly. *)
Theorem estimate_within_feature_range (s s' : BigModel) :
  matrixtrials (cfg s) = 1%Z ->
  staticsample (cfg s) = false \/ logZapprox (cch s) = None ->
  estimate s = Returns tt s' ->
  exists F m,
    activeF s' = Returns F s' /\ mu (cch s') = Some m /\ length m = nrows F /\
    forall i a b, (i < nrows F)%nat ->
      (forall j, (j < ncols F)%nat -> a <= entry F i j <= b) ->
      a <= nth i m 0 <= b.
Proof.
  intros HT Hfresh H. rewrite (estimate_single s HT) in H.
  destruct (trial s) as [r s1|e s1|] eqn:Ht; try discriminate.
  destruct (trial_fresh s r s1) as (F & v & HF & Hcols & Hne & Hsum & Hmu);
    [tauto | exact Ht |].
  rewrite aggregate_single in H. injection H as Hs'.
  exists F, (fst r). split; [|split; [|split]].
  - apply (activeF_cache_frame s1 s'); [|exact HF]. rewrite <- Hs'. reflexivity.
  - rewrite <- Hs'. reflexivity.
  - rewrite Hmu, length_map, length_seq. reflexivity.
  - intros i a b Hi Hrange. rewrite Hmu, nth_map_seq by exact Hi.
    set (w := map (fun x => exp (x - snd r)) v) in *.
    assert (Hn : 0 < INR (length v)).
    { apply lt_0_INR. destruct v; [congruence | cbn; lia]. }
    destruct (dotR_bounds (row F i) w a b) as [Hlo Hhi].
    + unfold row, w. rewrite !length_map, length_seq. exact Hcols.
    + intros x Hx. unfold w in Hx. apply in_map_iff in Hx. destruct Hx as (y & <- & _).
      left. apply exp_pos.
    + intros x Hx. unfold row in Hx. apply in_map_iff in Hx. destruct Hx as (j & <- & Hj).
      apply Hrange. apply in_seq in Hj. lia.
    + rewrite Hsum in Hlo, Hhi. split.
      * apply Rmult_le_reg_r with (r := INR (length v)); [exact Hn|].
        unfold Rdiv. rewrite Rmult_assoc, Rinv_l by lra. lra.
      * apply Rmult_le_reg_r with (r := INR (length v)); [exact Hn|].
        unfold Rdiv. rewrite Rmult_assoc, Rinv_l by lra. lra.
Qed.

Lemma estimate_within_feature_range_witness :
  exists s' m,
    estimate model3 = Returns tt s' /\ mu (cch s') = Some m /\
    0 <= nth 0 m 0 <= 1.
Proof.
  assert (H : exists s', estimate model3 = Returns tt s')
    by (eexists; run_cbv; reflexivity).
  destruct H as (s' & H).
  destruct (estimate_within_feature_range model3 s' eq_refl (or_intror eq_refl) H)
    as (F & m & HF & Hm & _ & Hrange).
  exists s', m. split; [exact H|]. split; [exact Hm|].
  assert (HF3 : F = F3).
  { pose proof (estimate_draws model3 s' H) as (_ & Hd). cbn in Hd. destruct Hd as [_ Hs].
    pose proof (estimate_frame _ _ _ H) as (_ & _ & _ & _ & _ & Ht & _).
    unfold activeF in HF. cbv [bind gets] in HF. rewrite Ht in HF. cbn in HF.
    unfold attr in HF. rewrite Hs in HF. cbn in HF. now inversion HF. }
  subst F. apply Hrange; [cbn; lia|].
  intros j Hj. cbn in Hj.
  destruct j as [|[|[|j]]]; [cbn; lra | cbn; lra | cbn; lra | lia].
Defined.

(** ** Stochastic approximation *)

(** *** The unbound names *)

Lemma bind_norm {A B} (arg : M A) (f : R -> M B) s :
  bind (norm arg) f s = Raises (NameError "norm") s.
Proof. reflexivity. Qed.

Lemma bind_modify {B} g (f : unit -> M B) s : bind (modify g) f s = f tt (g s).
Proof. reflexivity. Qed.

(** A pass of the loop never completes: it is left by an exception, at
    [norm] at the latest. *)
Lemma sa_iteration_never_returns target l s l' s' :
  sa_iteration target l s <> Returns l' s'.
Proof.
  intros H. unfold sa_iteration in H.
  run_inv H as na s1 H1. run_inv H as ys s2 H2. run_inv H as x s3 H3.
  discriminate H3.
Qed.

Lemma sa_loop_raise target fuel l s e s1 :
  sa_iteration target l s = Raises e s1 -> sa_loop fuel target l s = Raises e s1.
Proof. intros H. destruct fuel; cbn [sa_loop]; apply bind_raise; exact H. Qed.

(** So the loop is its first pass. *)
Lemma sa_loop_first_pass target fuel l s :
  sa_loop fuel target l s = sa_iteration target l s.
Proof.
  destruct (sa_iteration target l s) as [l' s'|e s'|] eqn:E.
  - exfalso. eapply sa_iteration_never_returns. exact E.
  - apply sa_loop_raise. exact E.
  - destruct fuel; cbn [sa_loop]; unfold bind; rewrite E; reflexivity.
Qed.

(** The object as the initialisation of [stochapprox] leaves it. *)
Lemma sa_init_run s a0 theta :
  a_0 (cfg s) = Some a0 -> params s = Some theta ->
  sa_init s =
    Returns (mkLocals (match paramslogcounter (cfg s) with Some k0 => k0 | None => 0%Z end)
                      a0 theta None None None)
            (if exacttest (cfg s) then set_SAerror (Some []) s else s).
Proof.
  intros Ha Hp. unfold sa_init. cbv [bind gets attr]. rewrite Ha, Hp.
  destruct (exacttest (cfg s)); reflexivity.
Qed.

Lemma sa_init_cfg s :
  cfg (if exacttest (cfg s) then set_SAerror (Some []) s else s) = cfg s.
Proof. destruct (exacttest (cfg s)); reflexivity. Qed.

(** Without a step size or without parameters the initialisation raises an
    AttributeError and leaves the object as it was. *)
Lemma sa_init_raises s :
  a_0 (cfg s) = None \/ params s = None ->
  exists name, sa_init s = Raises (AttributeError name) s.
Proof.
  intros H. unfold sa_init. cbv [bind gets attr].
  destruct (a_0 (cfg s)) as [a0|]; [|eexists; reflexivity].
  destruct H as [H|H]; [discriminate|]. rewrite H. eexists. reflexivity.
Qed.


(** [stochapprox] is its initialisation followed by the first pass. *)
Lemma stochapprox_first_pass target s a0 theta :
  a_0 (cfg s) = Some a0 -> params s = Some theta ->
  stochapprox target s =
    sa_iteration target
      (mkLocals (match paramslogcounter (cfg s) with Some k0 => k0 | None => 0%Z end)
                a0 theta None None None)
      (if exacttest (cfg s) then set_SAerror (Some []) s else s).
Proof.
  intros Ha Hp. unfold stochapprox.
  rewrite (bind_run _ _ _ _ _ (sa_init_run s a0 theta Ha Hp)).
  cbv [bind gets]. apply sa_loop_first_pass.
Qed.

Lemma stochapprox_first_pass_raises target s a0 theta e s1 :
  a_0 (cfg s) = Some a0 -> params s = Some theta ->
  sa_iteration target
    (mkLocals (match paramslogcounter (cfg s) with Some k0 => k0 | None => 0%Z end)
              a0 theta None None None)
    (if exacttest (cfg s) then set_SAerror (Some []) s else s) = Raises e s1 ->
  stochapprox target s = Raises e s1.
Proof.
  intros Ha Hp H. rewrite (stochapprox_first_pass target s a0 theta Ha Hp). exact H.
Qed.

Lemma stochapprox_never_returns target s lf s' : stochapprox target s <> Returns lf s'.
Proof.
  intros H.
  destruct (a_0 (cfg s)) as [a0|] eqn:Ha.
  - destruct (params s) as [theta|] eqn:Hp.
    + rewrite (stochapprox_first_pass target s a0 theta Ha Hp) in H.
      eapply sa_iteration_never_returns. exact H.
    + destruct (sa_init_raises s (or_intror Hp)) as (name & Hi).
      unfold stochapprox in H. rewrite (bind_raise _ _ _ _ _ Hi) in H. discriminate.
  - destruct (sa_init_raises s (or_introl Ha)) as (name & Hi).
    unfold stochapprox in H. rewrite (bind_raise _ _ _ _ _ Hi) in H. discriminate.
Qed.

(** *** The head of a pass *)

Lemma step_size_keeps n0 : keeps eq (step_size n0).
Proof.
  unfold step_size, int_pow_float.
  repeat keeps_step (@eq_refl BigModel) (@eq_trans BigModel).
Qed.

(** In a pass that starts with [y_k] unbound, the first of a call, the head
    changes nothing, however it ends. *)
Lemma sa_step_size_first k' l s s' :
  y_k l = None -> final_state (sa_step_size k' l s) = Some s' -> s' = s.
Proof.
  intros Hy.
  assert (Hd : (exists n', decay_index k' l s = Returns n' s) \/
               decay_index k' l s = Raises (UnboundLocalError "y_k") s).
  { unfold decay_index. cbv [bind gets]. rewrite Hy.
    destruct (negb (deylon (cfg s))); [left; eexists; reflexivity|].
    destruct (k' <=? 2 + a_0_hold (cfg s))%Z; [left; eexists; reflexivity|].
    right. reflexivity. }
  unfold sa_step_size. cbv [bind gets].
  destruct (k' >? a_0_hold (cfg s))%Z.
  - destruct Hd as [(n' & Hd)|Hd]; rewrite Hd.
    + intros H. symmetry. apply (step_size_keeps n' s s').
      destruct (step_size n' s); cbn in H |- *;
        [inversion H; reflexivity | exact H | discriminate].
    + intros H. inversion H. reflexivity.
  - intros H. inversion H. reflexivity.
Qed.

Lemma step_size_returns n0 s a0 p :
  a_0 (cfg s) = Some a0 -> stepdecreaserate (cfg s) = Some p -> (0 < n0)%Z ->
  step_size (Some n0) s = Returns (1 * a0 / Rpower (IZR n0) p) s.
Proof.
  intros Ha Hp Hn. apply Z.ltb_lt in Hn.
  cbv [step_size bind gets attr local ret int_pow_float].
  destruct (ruppertaverage (cfg s)); rewrite ?Hp; cbv beta iota;
    rewrite Ha; cbv beta iota; rewrite ?Hp; cbv beta iota; rewrite Hn; reflexivity.
Qed.

Lemma mu_minus_returns target s m :
  mu (cch s) = Some m -> length m = length target ->
  mu_minus target s = Returns (map2 Rminus m target) s.
Proof.
  intros Hm Hl. cbv [mu_minus bind attr]. rewrite Hm.
  now rewrite broadcast_same.
Qed.


(** Without acceleration, or within the first two decaying passes, the head
    of a pass returns the decay index and the step size of the schedule. *)
Lemma sa_step_size_returns k' l s a0 p :
  a_0 (cfg s) = Some a0 -> stepdecreaserate (cfg s) = Some p ->
  deylon (cfg s) = false \/ (k' <= a_0_hold (cfg s) + 2)%Z ->
  sa_step_size k' l s =
    Returns (if (k' >? a_0_hold (cfg s))%Z
             then (Some (k' - a_0_hold (cfg s))%Z,
                   1 * a0 / Rpower (IZR (k' - a_0_hold (cfg s))) p)
             else (n l, a_k l)) s.
Proof.
  intros Ha Hp Hd. unfold sa_step_size. cbv [bind gets].
  destruct (Z.gtb_spec k' (a_0_hold (cfg s))) as [Hgt|Hle]; [|reflexivity].
  assert (Hdec : decay_index k' l s = Returns (Some (k' - a_0_hold (cfg s))%Z) s).
  { unfold decay_index. cbv [bind gets ret].
    destruct (deylon (cfg s)); cbn [negb]; [|reflexivity].
    destruct Hd as [Hd|Hd]; [discriminate|].
    destruct (Z.leb_spec k' (2 + a_0_hold (cfg s))) as [_|Hx]; [reflexivity | lia]. }
  rewrite Hdec.
  rewrite (step_size_returns _ s a0 p Ha Hp) by lia. reflexivity.
Qed.

(** *** The gradient estimate *)

Lemma mu_minus_keeps target : keeps estimator_frame (mu_minus target).
Proof. unfold mu_minus. est_keeps. Qed.

(** However the gradient estimate ends, it has forced the trial count and
    the static-sample flag, and otherwise changed what [estimate] changes. *)
Lemma gradient_estimate_keeps target l s s' :
  final_state (gradient_estimate target l s) = Some s' ->
  estimator_frame (single_trial s) s'.
Proof.
  intros H. unfold gradient_estimate in H. rewrite !bind_modify in H.
  fold (single_trial s) in H.
  by_keeps H.
  pose proof estimate_keeps. pose proof (mu_minus_keeps target).
  est_keeps.
Qed.

Lemma sa_iteration_final target l s s' :
  y_k l = None ->
  final_state (sa_iteration target l s) = Some s' ->
  s' = s \/ estimator_frame (single_trial s) s'.
Proof.
  intros Hy H. pose proof (fun s1 => sa_step_size_first (k l + 1) l s s1 Hy) as Hst.
  unfold sa_iteration in H. unfold bind at 1 in H.
  destruct (sa_step_size (k l + 1) l s) as [na s1|e s1|] eqn:E; [| |discriminate].
  - assert (s1 = s) as -> by (apply Hst; reflexivity).
    right. unfold bind at 1 in H.
    destruct (gradient_estimate target l s) as [ys s2|e s2|] eqn:Eg; [| |discriminate].
    + rewrite bind_norm in H. inversion H; subst s2.
      apply (gradient_estimate_keeps target l). rewrite Eg. reflexivity.
    + inversion H; subst s2.
      apply (gradient_estimate_keeps target l). rewrite Eg. reflexivity.
  - left. inversion H; subst s1. apply Hst. reflexivity.
Qed.

(** What a call of [stochapprox] leaves, however it ends. *)
Lemma stochapprox_final target s s' :
  final_state (stochapprox target s) = Some s' ->
  s' = s \/
  exists a0 theta,
    a_0 (cfg s) = Some a0 /\ params s = Some theta /\
    (s' = (if exacttest (cfg s) then set_SAerror (Some []) s else s) \/
     estimator_frame
       (single_trial (if exacttest (cfg s) then set_SAerror (Some []) s else s)) s').
Proof.
  intros H.
  destruct (a_0 (cfg s)) as [a0|] eqn:Ha.
  - destruct (params s) as [theta|] eqn:Hp.
    + right. exists a0, theta. split; [reflexivity|]. split; [reflexivity|].
      rewrite (stochapprox_first_pass target s a0 theta Ha Hp) in H.
      apply sa_iteration_final in H; [exact H | reflexivity].
    + left. destruct (sa_init_raises s (or_intror Hp)) as (name & Hi).
      unfold stochapprox in H. rewrite (bind_raise _ _ _ _ _ Hi) in H.
      inversion H. reflexivity.
  - left. destruct (sa_init_raises s (or_introl Ha)) as (name & Hi).
    unfold stochapprox in H. rewrite (bind_raise _ _ _ _ _ Hi) in H.
    inversion H. reflexivity.
Qed.

(** *** Progress: how far a pass gets *)

Lemma lift_inr {A} (r : exn + A) a s : r = inr a -> lift r s = Returns a s.
Proof. intros ->. reflexivity. Qed.

Lemma ready_frame m s s' :
  ready m s -> estimator_frame s s' -> ready m s'.
Proof.
  intros ((theta & Hp & Hl) & He & Hpr & Hg) (Hk & _ & Hpr' & Hg' & _ & Ht & _).
  unfold ready. rewrite Ht, Hpr', Hg'.
  split; [exists theta; auto|]. auto.
Qed.

(** On a ready object [resample] returns, with a validated sample and empty
    caches. *)
Lemma resample_ready m s :
  ready m s ->
  exists s' F lp,
    resample s = Returns tt s' /\ ready m s' /\
    cch s' = mkCache None None None None /\
    sampleF (smp s') = Some F /\ samplelogprobs (smp s') = Some (ndarray1 lp) /\
    nrows F = m /\ length lp = ncols F /\ (0 < ncols F)%nat.
Proof.
  intros Hr. pose proof Hr as ((theta & Hp & Hl) & He & Hpr & Hg).
  destruct (Hg (drawn s)) as (Hrows & Hvalid & Hn).
  destruct (resample_cases s) as (_ & _ & Hok).
  destruct (Hok theta Hp ltac:(congruence)) as [Hret _].
  specialize (Hret Hvalid).
  destruct Hvalid as (lp & Hlp & Hlen).
  eexists. exists (draw_F (samplegen s (drawn s))), lp.
  split; [exact Hret|]. split.
  - eapply ready_frame; [exact Hr|]. eapply resample_frame. exact Hret.
  - cbn. rewrite Hlp. repeat split; auto.
Qed.

(** On a ready object a trial that draws its sample returns. *)
Lemma trial_ready m s :
  ready m s ->
  staticsample (cfg s) = false \/ (1 < matrixtrials (cfg s))%Z ->
  exists r s', trial s = Returns r s' /\ ready m s'.
Proof.
  intros Hr Hcond.
  destruct (resample_ready m s Hr) as (s1 & F & lp & Hre & Hr1 & Hc1 & HF & Hlp & Hrows & Hlen & Hn).
  pose proof Hr1 as ((theta & Hp & Hl) & He & Hpr & _).
  destruct (logv_fresh s1 theta F lp None) as (v & Hv & Hlv & _); auto.
  { unfold active_sample. now rewrite He, HF, Hlp, Hpr. }
  { repeat split; auto. congruence. }
  { now rewrite Hc1. }
  set (s2 := set_logv (Some v) s1) in *.
  assert (Hz : lognormconst s2 =
               Returns (logsumexp v - ln (INR (length v)))
                       (set_logZapprox (Some (logsumexp v - ln (INR (length v)))) s2)).
  { apply lognormconst_from_logv.
    - subst s2. cbn. now rewrite Hc1.
    - apply logv_cached. reflexivity.
    - lia. }
  set (z := logsumexp v - ln (INR (length v))) in *.
  set (s3 := set_logZapprox (Some z) s2) in *.
  assert (HaF : activeF s3 = Returns F s3).
  { cbv [activeF bind gets attr]. change (tst s3) with (tst s1). rewrite He.
    change (smp s3) with (smp s1). now rewrite HF. }
  assert (Hmv : matvec F (map exp (map (fun x => x - z) v)) =
                inr (map (fun i => dotR (row F i) (map exp (map (fun x => x - z) v)))
                         (seq 0 (nrows F)))).
  { unfold matvec. now rewrite !length_map, Hlv, Nat.eqb_refl. }
  exists (map (fun x => x / INR (length v))
              (map (fun i => dotR (row F i) (map exp (map (fun x => x - z) v)))
                   (seq 0 (nrows F))), z), s3.
  split.
  - unfold trial. unfold bind at 1. unfold gets at 1.
    assert (Hb : negb (staticsample (cfg s)) || (matrixtrials (cfg s) >? 1)%Z = true).
    { destruct Hcond as [-> | Hgt]; [reflexivity|].
      apply orb_true_iff. right. now apply Z.gtb_lt. }
    rewrite Hb.
    rewrite (bind_run _ _ _ _ _ Hre), (bind_run _ _ _ _ _ Hv). cbv zeta.
    rewrite (bind_run _ _ _ _ _ Hz), (bind_run _ _ _ _ _ HaF).
    rewrite (bind_run _ _ _ _ _ (lift_inr _ _ _ Hmv)).
    unfold div_by_len. destruct (length v) eqn:En; [lia|]. reflexivity.
  - eapply ready_frame; [exact Hr1|].
    unfold estimator_frame. cbn. repeat split; auto.
Qed.

Lemma trials_ready m t : forall mus logZs s,
  ready m s ->
  staticsample (cfg s) = false \/ (1 < matrixtrials (cfg s))%Z ->
  exists r s',
    trials t mus logZs s = Returns r s' /\ ready m s' /\
    length (fst r) = (length mus + t)%nat /\ length (snd r) = (length logZs + t)%nat.
Proof.
  induction t as [|t IH]; intros mus logZs s Hr Hcond; cbn [trials].
  - exists (mus, logZs), s. cbn. rewrite !Nat.add_0_r. auto.
  - destruct (trial_ready m s Hr Hcond) as (r1 & s1 & Ht & Hr1).
    destruct (trial_frame _ _ _ Ht) as (_ & _ & _ & _ & Hcfg & _).
    destruct (IH (mus ++ [fst r1]) (logZs ++ [snd r1]) s1 Hr1) as (r & s' & Hts & Hr' & Hl1 & Hl2).
    { now rewrite Hcfg. }
    exists r, s'. rewrite (bind_run _ _ _ _ _ Ht).
    rewrite length_app in Hl1, Hl2. cbn [length] in Hl1, Hl2.
    split; [exact Hts|]. split; [exact Hr'|]. split; lia.
Qed.


(** On a ready object, with one trial and a fresh sample per estimate,
    [estimate] returns: it has drawn one sample and stored an estimate with
    one entry per parameter. *)
Lemma estimate_ready m s :
  ready m s -> staticsample (cfg s) = false -> matrixtrials (cfg s) = 1%Z ->
  exists s' mu1,
    estimate s = Returns tt s' /\ ready m s' /\
    mu (cch s') = Some mu1 /\ length mu1 = m /\
    cfg s' = cfg s /\ drawn s' = S (drawn s) /\
    smp s' = stored (samplegen s) (drawn s).
Proof.
  intros Hr Hst HT.
  destruct (trials_ready m 1 [] [] s Hr (or_introl Hst)) as (r & s1 & Hts & Hr1 & Hl1 & Hl2).
  destruct r as [mus logZs]. cbn in Hl1, Hl2.
  destruct mus as [|m1 [|? ?]]; try discriminate.
  destruct logZs as [|z1 [|? ?]]; try discriminate.
  assert (He : estimate s =
               Returns tt (set_varE None (set_logZapprox (Some z1) (set_mu (Some m1) s1)))).
  { unfold estimate. cbv [bind gets]. rewrite HT. change (Z.to_nat 1) with 1%nat.
    rewrite Hts. apply aggregate_single. }
  set (s' := set_varE None (set_logZapprox (Some z1) (set_mu (Some m1) s1))) in *.
  pose proof Hr as ((theta & Hp & Hl) & _).
  destruct (estimate_mu_length s theta s' HT Hst Hp He) as (mu1 & Hmu & Hlmu).
  pose proof (estimate_frame _ _ _ He) as Hfr.
  pose proof (estimate_draws s s' He) as (_ & Hd). rewrite Hst in Hd.
  exists s', mu1. split; [exact He|]. split; [exact (ready_frame m s s' Hr Hfr)|].
  split; [exact Hmu|]. split; [congruence|].
  split; [apply Hfr|]. exact Hd.
Qed.

(** On a ready object the gradient estimate gets as far as the code lets it:
    it returns the gradient of the Robbins-Monro branch, and in Andradottir's
    branch it is stopped at [norm], after the two estimates. *)
Lemma gradient_estimate_ready m target l s :
  ready m s -> length target = m ->
  exists s',
    ready m s' /\
    drawn s' = (drawn s + if andradottir (cfg s) then 2 else 1)%nat /\
    smp s' = stored (samplegen s) (pred (drawn s')) /\
    if andradottir (cfg s)
    then gradient_estimate target l s = Raises (NameError "norm") s'
    else exists y,
           gradient_estimate target l s =
             Returns (Some y, match y_k l with Some y0 => Some y0 | None => y_kminus1 l end) s'.
Proof.
  intros Hr Ht.
  set (s2 := single_trial s).
  assert (Hr2 : ready m s2) by exact Hr.
  assert (Hst : staticsample (cfg s2) = false) by reflexivity.
  assert (HT : matrixtrials (cfg s2) = 1%Z) by reflexivity.
  assert (Ha2 : andradottir (cfg s2) = andradottir (cfg s)) by reflexivity.
  assert (Hd2 : drawn s2 = drawn s) by reflexivity.
  assert (Hg2 : samplegen s2 = samplegen s) by reflexivity.
  destruct (estimate_ready m s2 Hr2 Hst HT)
    as (s3 & mu1 & He1 & Hr3 & Hmu1 & Hl1 & Hc3 & Hd3 & Hs3).
  assert (Hm1 := mu_minus_returns target s3 mu1 Hmu1 ltac:(congruence)).
  assert (Hstart : gradient_estimate target l s =
    (c <- gets cfg ;;
     if andradottir c then
       estimate ;;;
       y_k_1 <- mu_minus target ;;
       estimate ;;;
       y_k_2 <- mu_minus target ;;
       n2 <- norm (ret y_k_2) ;;
       n1 <- norm (ret y_k_1) ;;
       y <- lift (broadcast Rplus (divide y_k_1 (Rmax 1 n2)) (divide y_k_2 (Rmax 1 n1))) ;;
       ret (Some y, y_kminus1 l)
     else
       (if negb (staticsample c) then estimate else ret tt) ;;;
       let ykm := match y_k l with Some y => Some y | None => y_kminus1 l end in
       y <- mu_minus target ;;
       ret (Some y, ykm)) s2) by reflexivity.
  destruct (andradottir (cfg s)).
  - assert (Hst3 : staticsample (cfg s3) = false) by (rewrite Hc3; exact Hst).
    assert (HT3 : matrixtrials (cfg s3) = 1%Z) by (rewrite Hc3; exact HT).
    destruct (estimate_ready m s3 Hr3 Hst3 HT3)
      as (s4 & mu2 & He2 & Hr4 & Hmu2 & Hl2 & Hc4 & Hd4 & Hs4).
    assert (Hm2 := mu_minus_returns target s4 mu2 Hmu2 ltac:(congruence)).
    pose proof (estimate_frame _ _ _ He1) as (_ & _ & _ & Hg3 & _).
    exists s4. split; [exact Hr4|]. split; [lia|]. split.
    + rewrite Hs4, Hd4, Hg3, Hg2. reflexivity.
    + rewrite Hstart. unfold bind at 1. unfold gets at 1. rewrite Ha2.
      rewrite (bind_run _ _ _ _ _ He1), (bind_run _ _ _ _ _ Hm1).
      rewrite (bind_run _ _ _ _ _ He2), (bind_run _ _ _ _ _ Hm2).
      reflexivity.
  - exists s3. split; [exact Hr3|]. split; [lia|]. split.
    + rewrite Hs3, Hd3, Hg2, Hd2. reflexivity.
    + exists (map2 Rminus mu1 target).
      rewrite Hstart. unfold bind at 1. unfold gets at 1. rewrite Ha2, Hst. cbn [negb].
      rewrite (bind_run _ _ _ _ _ He1), (bind_run _ _ _ _ _ Hm1). reflexivity.
Qed.

(** On a ready object, with a step size and a decrease rate, and without
    acceleration or within its first two decaying passes, a pass is stopped
    by the NameError of [norm], after the gradient estimate. *)
Lemma sa_iteration_stops m target l s a0 p :
  ready m s -> length target = m ->
  a_0 (cfg s) = Some a0 -> stepdecreaserate (cfg s) = Some p ->
  deylon (cfg s) = false \/ (k l + 1 <= a_0_hold (cfg s) + 2)%Z ->
  exists s',
    sa_iteration target l s = Raises (NameError "norm") s' /\
    ready m s' /\
    drawn s' = (drawn s + if andradottir (cfg s) then 2 else 1)%nat /\
    smp s' = stored (samplegen s) (pred (drawn s')).
Proof.
  intros Hr Ht Ha Hp Hd.
  pose proof (sa_step_size_returns (k l + 1) l s a0 p Ha Hp Hd) as Hstep.
  destruct (gradient_estimate_ready m target l s Hr Ht) as (s' & Hr' & Hdr & Hsm & Hg).
  exists s'. split; [|auto].
  unfold sa_iteration. rewrite (bind_run _ _ _ _ _ Hstep).
  destruct (andradottir (cfg s)).
  - apply bind_raise. exact Hg.
  - destruct Hg as (y & Hg). rewrite (bind_run _ _ _ _ _ Hg). apply bind_norm.
Qed.

Lemma stochapprox_stops m target s a0 p :
  ready m s -> length target = m ->
  a_0 (cfg s) = Some a0 -> stepdecreaserate (cfg s) = Some p ->
  deylon (cfg s) = false \/
  (match paramslogcounter (cfg s) with Some k0 => k0 | None => 0 end + 1
   <= a_0_hold (cfg s) + 2)%Z ->
  exists s',
    stochapprox target s = Raises (NameError "norm") s' /\
    ready m s' /\
    drawn s' = (drawn s + if andradottir (cfg s) then 2 else 1)%nat /\
    smp s' = stored (samplegen s) (pred (drawn s')).
Proof.
  intros Hr Ht Ha Hp Hd.
  pose proof Hr as ((theta & Hth & Hl) & _).
  rewrite (stochapprox_first_pass target s a0 theta Ha Hth).
  set (s0 := if exacttest (cfg s) then set_SAerror (Some []) s else s).
  assert (Hc0 : cfg s0 = cfg s) by apply sa_init_cfg.
  assert (Hr0 : ready m s0) by (subst s0; destruct (exacttest (cfg s)); exact Hr).
  assert (Hd0 : drawn s0 = drawn s) by (subst s0; destruct (exacttest (cfg s)); reflexivity).
  assert (Hg0 : samplegen s0 = samplegen s)
    by (subst s0; destruct (exacttest (cfg s)); reflexivity).
  destruct (sa_iteration_stops m target
              (mkLocals (match paramslogcounter (cfg s) with Some k0 => k0 | None => 0%Z end)
                        a0 theta None None None) s0 a0 p Hr0 Ht)
    as (s' & Hrun & Hr' & Hdr & Hsm); try (rewrite Hc0; assumption).
  exists s'. rewrite Hc0, Hd0, Hg0 in *. auto.
Qed.



Lemma stochapprox_params target s s' :
  final_state (stochapprox target s) = Some s' -> params s' = params s.
Proof.
  intros H. apply stochapprox_final in H.
  destruct H as [->|(a0 & theta & _ & Hp & [->|Hf])]; [reflexivity| |].
  - destruct (exacttest (cfg s)); reflexivity.
  - destruct Hf as (Hps & _). rewrite Hp. apply Hps.
    destruct (exacttest (cfg s)); exact Hp.
Qed.




(** The small models are ready for estimation. *)
Lemma gen3_good i : good_draw 2 (gen3 i).
Proof.
  unfold good_draw. cbn. split; [reflexivity|]. split; [|lia].
  exists logq3. split; reflexivity.
Qed.

Lemma ready_gen3 s theta :
  params s = Some theta -> length theta = 2%nat ->
  external (tst s) = None -> priorlogprobs s = None -> samplegen s = gen3 ->
  ready 2 s.
Proof.
  intros Hp Hl He Hpr Hg. unfold ready. split; [exists theta; auto|].
  split; [exact He|]. split; [exact Hpr|]. intros i. rewrite Hg. apply gen3_good.
Qed.



(** *** The update of the parameters *)

(** C5.  The averaged update is never reached.  Each pass of the loop of
    [stochapprox] computes its step size and its gradient estimate and then
    evaluates [norm(y_k)] (line 590); the module binds no [norm], so the pass
    is left by a NameError before the raw update [theta - a_k*y_k], the
    running average and [setparams] (lines 599-609).  Hence no pass
    completes, [stochapprox] never returns, and however it ends the
    parameters are those of before the call: no raw update is averaged or
    committed.  On an object ready for estimation, with averaging on, a step
    size and a decrease rate configured and no acceleration, the call ends
    with that NameError. *)
Theorem stochapprox_commits_no_update (target : vec) (s : BigModel) :
  (forall l l' s', sa_iteration target l s <> Returns l' s') /\
  (forall lf s', stochapprox target s <> Returns lf s') /\
  (forall s', final_state (stochapprox target s) = Some s' -> params s' = params s) /\
  (forall m a0 p,
     ready m s -> length target = m -> ruppertaverage (cfg s) = true ->
     a_0 (cfg s) = Some a0 -> stepdecreaserate (cfg s) = Some p ->
     deylon (cfg s) = false ->
     exists s',
       stochapprox target s = Raises (NameError "norm") s' /\ params s' = params s).
Proof.
  split; [|split; [|split]].
  - intros l l' s'. apply sa_iteration_never_returns.
  - intros lf s'. apply stochapprox_never_returns.
  - intros s'. apply stochapprox_params.
  - intros m a0 p Hr Ht _ Ha Hp Hd.
    destruct (stochapprox_stops m target s a0 p Hr Ht Ha Hp (or_introl Hd))
      as (s' & Hrun & _).
    exists s'. split; [exact Hrun|].
    apply (stochapprox_params target). rewrite Hrun. reflexivity.
Qed.

Lemma stochapprox_commits_no_update_witness :
  exists s',
    stochapprox [1; 1] sa_model3 = Raises (NameError "norm") s' /\
    params s' = Some [1; 2].
Proof.
  destruct (stochapprox_commits_no_update [1; 1] sa_model3) as (_ & _ & _ & H).
  destruct (H 2%nat 1 (3 / 4)) as (s' & Hrun & Hp); try reflexivity.
  - apply (ready_gen3 sa_model3 [1; 2]); reflexivity.
  - exists s'. split; [exact Hrun | exact Hp].
Defined.

(** *** The step-size schedule *)



(** *** The accelerated decay index *)

Lemma decay_index_first_two k' l s :
  (k' <= a_0_hold (cfg s) + 2)%Z ->
  decay_index k' l s = Returns (Some (k' - a_0_hold (cfg s))%Z) s.
Proof.
  intros Hk. unfold decay_index. cbv [bind gets ret].
  destruct (negb (deylon (cfg s))); [reflexivity|].
  destruct (Z.leb_spec k' (2 + a_0_hold (cfg s))) as [_|Hx]; [reflexivity | lia].
Qed.





(** *** The settings after [stochapprox] *)




(** *** What [stochapprox] needs before its first pass *)

(** X12. Without an initial step size [stochapprox] raises AttributeError
    "first define the initial step size a_0" and leaves the object as it
    was, whatever else is set; with a step size but no parameters it raises
    AttributeError for [params], again before anything is changed. *)
Theorem stochapprox_needs_step_size (target : vec) (s : BigModel) :
  (a_0 (cfg s) = None ->
   stochapprox target s =
     Raises (AttributeError "first define the initial step size a_0") s) /\
  (a_0 (cfg s) <> None -> params s = None ->
   stochapprox target s = Raises (AttributeError "params") s).
Proof.
  split.
  - intros H. unfold stochapprox, sa_init. cbv [bind gets attr]. rewrite H. reflexivity.
  - intros H Hp. unfold stochapprox, sa_init. cbv [bind gets attr].
    destruct (a_0 (cfg s)); [|congruence]. rewrite Hp. reflexivity.
Qed.

Lemma stochapprox_needs_step_size_witness :
  stochapprox [1; 1] model3 =
    Raises (AttributeError "first define the initial step size a_0") model3.
Proof. apply (stochapprox_needs_step_size [1; 1] model3). reflexivity. Defined.

(** *** The accelerated decay index and unbound locals *)




(** X14. Deylon's acceleration cannot resume: when the counter
    [paramslogcounter] that [stochapprox] adopts is already at
    [a_0_hold + 2] or beyond, the first pass reads [y_k] in
    [np.dot(y_k, y_kminus1)] before any gradient was estimated, and the call
    raises UnboundLocalError for [y_k]; nothing is changed but [SAerror],
    reset when [exacttest] is on. *)
Theorem deylon_cannot_resume (target : vec) (s : BigModel) a0 theta k0 :
  deylon (cfg s) = true ->
  a_0 (cfg s) = Some a0 -> params s = Some theta ->
  paramslogcounter (cfg s) = Some k0 -> (a_0_hold (cfg s) + 2 <= k0)%Z ->
  stochapprox target s =
    Raises (UnboundLocalError "y_k")
           (if exacttest (cfg s) then set_SAerror (Some []) s else s).
Proof.
  intros Hd Ha Hp Hk0 Hle.
  apply (stochapprox_first_pass_raises target s a0 theta); [assumption | assumption |].
  rewrite Hk0. set (s0 := if exacttest (cfg s) then set_SAerror (Some []) s else s).
  assert (Hcfg : cfg s0 = cfg s) by apply sa_init_cfg.
  unfold sa_iteration, sa_step_size. cbv [bind gets]. cbn [k]. rewrite Hcfg.
  destruct (Z.gtb_spec (k0 + 1) (a_0_hold (cfg s))) as [_|Hx]; [|lia].
  unfold decay_index. cbv [bind gets]. rewrite Hcfg, Hd. cbn [negb].
  destruct (Z.leb_spec (k0 + 1) (2 + a_0_hold (cfg s))) as [Hx|_]; [lia|].
  reflexivity.
Qed.

Lemma deylon_cannot_resume_witness :
  stochapprox [1; 1] resumed_deylon_model3 =
    Raises (UnboundLocalError "y_k") resumed_deylon_model3.
Proof.
  apply (deylon_cannot_resume [1; 1] resumed_deylon_model3 1 [1; 2] 4);
    try reflexivity.
  cbn. lia.
Defined.

(** *** The step sizes without a decrease rate *)

Lemma first_decay_index s l :
  decay_index (a_0_hold (cfg s) + 1) l s = Returns (Some 1%Z) s.
Proof.
  rewrite decay_index_first_two by lia. do 2 f_equal. f_equal. lia.
Qed.

(** X15. With [stepdecreaserate] set to [None] and averaging on, the step
    size is [a_0 * log(n) / n], which is 0 at the first decaying pass
    ([n = 1], with or without acceleration): the head of that pass returns
    the decay index 1 and the step size 0, so the gradient that the pass
    goes on to estimate is given no weight. *)
Theorem log_decay_first_step (l : locals) (s : BigModel) a0 :
  ruppertaverage (cfg s) = true -> stepdecreaserate (cfg s) = None ->
  a_0 (cfg s) = Some a0 -> k l = a_0_hold (cfg s) ->
  exists a',
    sa_step_size (k l + 1) l s = Returns (Some 1%Z, a') s /\ a' = 0.
Proof.
  intros Hr Hrate Ha Hk. exists (1 * a0 * ln (IZR 1) / IZR 1). split.
  - unfold sa_step_size. cbv [bind gets]. rewrite Hk.
    destruct (Z.gtb_spec (a_0_hold (cfg s) + 1) (a_0_hold (cfg s))) as [_|Hx]; [|lia].
    rewrite first_decay_index.
    unfold step_size. cbv [bind gets attr local lift ret math_logZ].
    rewrite Hr, Hrate, Ha. reflexivity.
  - rewrite ln_1. lra.
Qed.

Lemma log_decay_first_step_witness :
  exists a',
    sa_step_size 1 (mkLocals 0 1 [1; 2] None None None) log_decay_model3 =
      Returns (Some 1%Z, a') log_decay_model3 /\ a' = 0.
Proof.
  exact (log_decay_first_step (mkLocals 0 1 [1; 2] None None None) log_decay_model3 1
           eq_refl eq_refl eq_refl eq_refl).
Defined.

(** X16. Without averaging the step size is [a_0 / n ** stepdecreaserate]:
    with [stepdecreaserate] set to [None] (the setting that selects the
    [log n / n] sizes under averaging) the first decaying pass raises
    TypeError.  When the step size is not held ([a_0_hold] is not beyond the
    counter the call starts from) this is the first pass: no sample is
    drawn, no setting is forced, and nothing is changed but [SAerror], reset
    when [exacttest] is on. *)
Theorem plain_solver_needs_rate (target : vec) (s : BigModel) a0 theta :
  ruppertaverage (cfg s) = false -> stepdecreaserate (cfg s) = None ->
  deylon (cfg s) = false ->
  a_0 (cfg s) = Some a0 -> params s = Some theta ->
  (a_0_hold (cfg s) <= match paramslogcounter (cfg s) with Some k0 => k0 | None => 0 end)%Z ->
  stochapprox target s =
    Raises (TypeError "unsupported operand type(s) for **")
           (if exacttest (cfg s) then set_SAerror (Some []) s else s).
Proof.
  intros Hr Hrate Hd Ha Hp Hle.
  apply (stochapprox_first_pass_raises target s a0 theta); [assumption | assumption |].
  set (k0 := match paramslogcounter (cfg s) with Some k0 => k0 | None => 0%Z end) in *.
  set (s0 := if exacttest (cfg s) then set_SAerror (Some []) s else s).
  assert (Hcfg : cfg s0 = cfg s) by apply sa_init_cfg.
  unfold sa_iteration, sa_step_size. cbv [bind gets]. cbn [k]. rewrite Hcfg.
  destruct (Z.gtb_spec (k0 + 1) (a_0_hold (cfg s))) as [_|Hx]; [|lia].
  unfold decay_index. cbv [bind gets ret]. rewrite Hcfg, Hd. cbn [negb].
  unfold step_size. cbv [bind gets attr]. rewrite Hcfg, Hr. cbv beta iota.
  rewrite Hcfg, Ha, Hrate. reflexivity.
Qed.

Lemma plain_solver_needs_rate_witness :
  stochapprox [1; 1] plain_no_rate_model3 =
    Raises (TypeError "unsupported operand type(s) for **") plain_no_rate_model3.
Proof.
  apply (plain_solver_needs_rate [1; 1] plain_no_rate_model3 1 [1; 2]);
    first [reflexivity | cbn; lia].
Defined.

(** ** How many samples [stochapprox] draws *)

(** X21. A call of [stochapprox] draws for one gradient estimate only.  On
    an object ready for estimation, with a step size and a decrease rate
    configured, and without acceleration or within its first two decaying
    passes, the call takes one sample from the generator, or two with
    Andradottir's scaling (one for each of its two estimates), whatever
    [staticsample] and [matrixtrials] were; the last item taken is the
    current sample when the NameError of [norm] ends the call. *)
Theorem stochapprox_draw_count (m : nat) (target : vec) (s : BigModel) a0 p :
  ready m s -> length target = m ->
  a_0 (cfg s) = Some a0 -> stepdecreaserate (cfg s) = Some p ->
  deylon (cfg s) = false \/
  (match paramslogcounter (cfg s) with Some k0 => k0 | None => 0 end + 1
   <= a_0_hold (cfg s) + 2)%Z ->
  exists s',
    stochapprox target s = Raises (NameError "norm") s' /\
    drawn s' = (drawn s + if andradottir (cfg s) then 2 else 1)%nat /\
    smp s' = stored (samplegen s) (pred (drawn s')).
Proof.
  intros Hr Ht Ha Hp Hd.
  destruct (stochapprox_stops m target s a0 p Hr Ht Ha Hp Hd) as (s' & Hrun & _ & Hdr & Hs).
  exists s'. auto.
Qed.

Lemma stochapprox_draw_count_witness :
  exists s',
    stochapprox [1; 1] accelerated_scaled_model3 = Raises (NameError "norm") s' /\
    drawn s' = 2%nat.
Proof.
  destruct (stochapprox_draw_count 2 [1; 1] accelerated_scaled_model3 1 (3 / 4))
    as (s' & Hrun & Hd & _); try reflexivity.
  - apply (ready_gen3 accelerated_scaled_model3 [1; 2]); reflexivity.
  - right. cbn. lia.
  - exists s'. split; [exact Hrun | exact Hd].
Defined.

(** ** Testing on external samples *)

Lemma tester_frame_refl s : tester_frame s s.
Proof. unfold tester_frame. intuition. Qed.

Lemma tester_frame_trans s1 s2 s3 :
  tester_frame s1 s2 -> tester_frame s2 s3 -> tester_frame s1 s3.
Proof.
  unfold tester_frame. intros (P1 & H1) (P2 & H2).
  split; [auto|]. intuition congruence.
Qed.

Lemma estimator_tester_keeps {A} (c : M A) :
  keeps estimator_frame c -> keeps tester_frame c.
Proof.
  intros H s s' Hrun. destruct (H s s' Hrun) as (Hp & HK & _ & _ & Hc & Ht & _).
  unfold tester_frame. rewrite Ht. repeat split; auto.
Qed.

Ltac tst_keeps :=
  repeat first
    [ keeps_step tester_frame_refl tester_frame_trans
    | assumption
    | match goal with H : _ |- keeps _ _ => apply H end
    | apply keeps_modify; intros ?; unfold tester_frame; cbn; intuition congruence ].

Lemma bind_Raises {A B} (c : M A) (f : A -> M B) s e s' :
  bind c f s = Raises e s' ->
  c s = Raises e s' \/ exists a s1, c s = Returns a s1 /\ f a s1 = Raises e s'.
Proof.
  unfold bind. destruct (c s) as [a s1|e1 s1|]; intros H; try discriminate.
  - right. exists a, s1. auto.
  - left. inversion H. reflexivity.
Qed.

Lemma dual_keeps : keeps estimator_frame dual.
Proof. pose proof lognormconst_keeps. unfold dual. est_keeps. Qed.

Lemma test_loop_keeps es : forall ds gs, keeps tester_frame (test_loop es ds gs).
Proof.
  pose proof (estimator_tester_keeps _ dual_keeps).
  pose proof (estimator_tester_keeps _ clearcache_keeps).
  induction es as [|e es IH]; intros ds gs; cbn [test_loop]; tst_keeps.
Qed.

Lemma test_measure_keeps : keeps tester_frame test_measure.
Proof.
  pose proof test_loop_keeps.
  pose proof (estimator_tester_keeps _ clearcache_keeps).
  unfold test_measure. tst_keeps.
Qed.

(** With an external sample to work on, the loop of [test] is left by an
    exception: in its first pass at the latest, at [norm]. *)
Lemma test_loop_never_returns e es ds gs s r s' :
  test_loop (e :: es) ds gs s <> Returns r s'.
Proof.
  intros H. cbn [test_loop] in H.
  run_inv H as u1 s1 H1. run_inv H as u2 s2 H2. run_inv H as d s3 H3.
  run_inv H as g s4 H4. discriminate H4.
Qed.

(** When the dual on the first external sample returns, [norm] stops the
    loop there. *)
Lemma test_loop_stops e es ds gs s d s1 :
  dual (set_cch no_cache (set_external (Some e) s)) = Returns d s1 ->
  test_loop (e :: es) ds gs s = Raises (NameError "norm") s1.
Proof.
  intros Hd. cbn [test_loop]. unfold clearcache. rewrite !bind_modify.
  fold no_cache. rewrite (bind_run _ _ _ _ _ Hd). apply bind_norm.
Qed.

(** [test_measure] returns only without external samples, with the mean
    [nan] of no dual. *)
Lemma test_measure_returns s m s1 :
  test_measure s = Returns m s1 ->
  n_external s = 0%nat /\ m = NaN /\
  dict_get (iters (tst s1)) (external_duals (tst s1)) = Some [] /\
  external (tst s1) = None /\ cch s1 = no_cache.
Proof.
  unfold test_measure. intros H.
  run_inv H as ts s0 Hts. apply attr_Returns in Hts as [Hts ->].
  run_inv H as r s2 Hloop.
  unfold n_external. rewrite Hts.
  destruct (externalFs ts) as [|F Fs].
  - cbn [length seq test_loop] in Hloop. inversion Hloop; subst r s2. clear Hloop.
    cbv [bind modify clearcache ret] in H. inversion H; subst; clear H.
    cbn. rewrite Z.eqb_refl. auto.
  - exfalso. cbn [length seq] in Hloop. eapply test_loop_never_returns. exact Hloop.
Qed.

Lemma test_record_nan s : test_record NaN s = Returns tt s.
Proof. reflexivity. Qed.

(** However [test] ends, the best-so-far record is what it was. *)
Lemma test_final s s' :
  final_state (test s) = Some s' -> tester_frame s s'.
Proof.
  intros H. unfold test in H. unfold bind in H.
  destruct (test_measure s) as [m s1|e s1|] eqn:E; [| |discriminate].
  - pose proof (test_measure_returns _ _ _ E) as (_ & -> & _).
    rewrite test_record_nan in H. inversion H; subst s'.
    apply test_measure_keeps. rewrite E. reflexivity.
  - inversion H; subst s'. apply test_measure_keeps. rewrite E. reflexivity.
Qed.

Lemma test_returns s s' :
  test s = Returns tt s' ->
  n_external s = 0%nat /\ recorded_meandual s' = NaN /\
  external (tst s') = None /\ cch s' = no_cache.
Proof.
  intros H. unfold test in H. run_inv H as m s1 Hm.
  pose proof (test_measure_returns _ _ _ Hm) as (Hn & -> & Hd & He & Hc).
  rewrite test_record_nan in H. inversion H; subst s'.
  unfold recorded_meandual. rewrite Hd. auto.
Qed.

Lemma test_stops s d s1 :
  (0 < n_external s)%nat ->
  dual (set_cch no_cache (set_external (Some 0%nat) s)) = Returns d s1 ->
  test s = Raises (NameError "norm") s1.
Proof.
  intros Hn Hd. unfold n_external in Hn.
  destruct (sets (tst s)) as [ts|] eqn:Hts; [|lia].
  unfold test, test_measure. cbv [bind attr]. rewrite Hts.
  destruct (externalFs ts) as [|F Fs]; [cbn in Hn; lia|].
  cbn [length seq]. rewrite (test_loop_stops _ _ _ _ _ _ _ Hd). reflexivity.
Qed.

Lemma scripted_stops :
  exists s', test (scripted_at (Some [2]) PosInf None [] []) = Raises (NameError "norm") s'.
Proof. eexists. run_cbv. reflexivity. Qed.

(** C9.  The best-so-far record is never replaced.  For each external sample
    [test] evaluates the dual and then [norm(self.grad(..))] (line 680); the
    module binds no [norm], so with one external sample or more the call is
    left by a NameError in the first pass of its loop, when the dual of that
    sample has been computed, before the mean dual is taken and compared
    with the record (lines 686-700).  It returns only without external
    samples, where the mean is [nan], which is below no record.  So however
    a call ends, the best dual and the best parameters are those of before
    the call. *)
Theorem test_never_replaces_record (s : BigModel) :
  (forall s', final_state (test s) = Some s' ->
     bestdual (tst s') = bestdual (tst s) /\ bestparams (tst s') = bestparams (tst s)) /\
  (forall s', test s = Returns tt s' ->
     n_external s = 0%nat /\ recorded_meandual s' = NaN) /\
  (forall d s1, (0 < n_external s)%nat ->
     dual (set_cch no_cache (set_external (Some 0%nat) s)) = Returns d s1 ->
     test s = Raises (NameError "norm") s1).
Proof.
  split; [|split].
  - intros s' H. apply test_final in H.
    destruct H as (_ & _ & _ & _ & _ & Hb & Hp). auto.
  - intros s' H. apply test_returns in H. destruct H as (Hn & Hm & _). auto.
  - intros d s1 Hn Hd. eapply test_stops; eassumption.
Qed.

Lemma test_never_replaces_record_witness :
  exists s',
    test (scripted_at (Some [2]) PosInf None [] []) = Raises (NameError "norm") s' /\
    bestdual (tst s') = PosInf /\ bestparams (tst s') = None.
Proof.
  destruct scripted_stops as (s' & H). exists s'. split; [exact H|].
  destruct (test_never_replaces_record (scripted_at (Some [2]) PosInf None [] [])) as (Hrec & _).
  apply Hrec. rewrite H. reflexivity.
Defined.

(** ** What [test] leaves behind *)

(** When the loop of [test] is left by an exception, the selector is at the
    external sample it was working on. *)
Lemma test_loop_raises es : forall ds gs s e s',
  test_loop es ds gs s = Raises e s' ->
  exists i, In i es /\ external (tst s') = Some i.
Proof.
  induction es as [|e0 es IH]; intros ds gs s e s' H; cbn [test_loop] in H.
  - discriminate.
  - apply bind_Raises in H. destruct H as [H|(u1 & s1 & H1 & H)]; [discriminate|].
    inversion H1; subst u1 s1. clear H1.
    apply bind_Raises in H. destruct H as [H|(u2 & s2 & H2 & H)]; [discriminate|].
    inversion H2; subst u2 s2. clear H2.
    set (s2 := set_cch (mkCache None None None None) (set_external (Some e0) s)) in *.
    assert (Hs2 : external (tst s2) = Some e0) by reflexivity.
    apply bind_Raises in H. destruct H as [H|(d & s3 & H3 & H)].
    { exists e0. split; [now left|].
      assert (Hf : final_state (dual s2) = Some s') by (rewrite H; reflexivity).
      apply dual_keeps in Hf. destruct Hf as (_ & _ & _ & _ & _ & Ht & _).
      rewrite Ht. exact Hs2. }
    assert (Hf3 : estimator_frame s2 s3).
    { apply dual_keeps. rewrite H3. reflexivity. }
    rewrite bind_norm in H. inversion H; subst s'.
    exists e0. split; [now left|].
    destruct Hf3 as (_ & _ & _ & _ & _ & Ht3 & _). rewrite Ht3. exact Hs2.
Qed.

Lemma test_measure_raises s e s' :
  test_measure s = Raises e s' ->
  (sets (tst s) = None /\ s' = s /\ e = AttributeError "externalFs") \/
  exists i, (i < n_external s)%nat /\ external (tst s') = Some i.
Proof.
  unfold test_measure. intros H.
  apply bind_Raises in H. destruct H as [H|(ts & s1 & H1 & H)].
  - left. unfold attr in H. destruct (sets (tst s)); [discriminate|].
    inversion H; subst. auto.
  - apply attr_Returns in H1. destruct H1 as [Hts ->].
    right. apply bind_Raises in H. destruct H as [H|(r & s2 & H2 & H)].
    + apply test_loop_raises in H. destruct H as (i & Hi & He).
      exists i. split; [|exact He].
      unfold n_external. rewrite Hts. apply in_seq in Hi. lia.
    + cbv [bind modify clearcache ret] in H. discriminate.
Qed.

(** X17. [test] puts the selector of the external sample back to [None] and
    clears the caches only when it returns.  When it raises while working on
    external sample [i], the selector is left at [i], the sample that
    [_logv] and [estimate] select from then on.  (The only other failure is
    the AttributeError of an object without registered samples, which
    changes nothing.) *)
Theorem test_selector_after (s : BigModel) theta :
  params s = Some theta ->
  (forall s', test s = Returns tt s' -> external (tst s') = None /\ cch s' = no_cache) /\
  (forall e s', test s = Raises e s' ->
     (sets (tst s) = None /\ s' = s /\ e = AttributeError "externalFs") \/
     exists i, (i < n_external s)%nat /\ external (tst s') = Some i).
Proof.
  intros Hp. split.
  - intros s' H. apply test_returns in H. destruct H as (_ & _ & He & Hc). auto.
  - intros e s' H. unfold test in H.
    apply bind_Raises in H. destruct H as [H|(m & s1 & H1 & H)].
    + apply test_measure_raises. exact H.
    + exfalso. pose proof (test_measure_returns _ _ _ H1) as (_ & -> & _).
      rewrite test_record_nan in H. discriminate.
Qed.

Lemma test_selector_after_witness :
  exists e s',
    test (scripted_at (Some [1; 2]) PosInf None [] []) = Raises e s' /\
    external (tst s') = Some 0%nat.
Proof.
  assert (H : exists e s', test (scripted_at (Some [1; 2]) PosInf None [] []) = Raises e s')
    by (eexists; eexists; run_cbv; reflexivity).
  destruct H as (e & s' & H). exists e, s'. split; [exact H|].
  destruct (test_selector_after (scripted_at (Some [1; 2]) PosInf None [] []) [1; 2] eq_refl)
    as [_ Hr].
  destruct (Hr e s' H) as [(Hn & _)|(i & Hi & He)]; [discriminate|].
  cbn in Hi. assert (i = 0%nat) as -> by lia. exact He.
Defined.

(** X18. [test] before [settestsamples] raises AttributeError and changes
    nothing.  With an empty list of external samples registered it returns:
    it records empty lists of duals and gradient norms under the iteration
    count, their mean is [nan], which is below no best-so-far value, so the
    record is not updated; the caches are cleared all the same. *)
Theorem test_without_samples (s : BigModel) :
  (sets (tst s) = None -> test s = Raises (AttributeError "externalFs") s) /\
  (forall ts, sets (tst s) = Some ts -> externalFs ts = [] ->
     exists s',
       test s = Returns tt s' /\
       dict_get (iters (tst s')) (external_duals (tst s')) = Some [] /\
       dict_get (iters (tst s')) (external_gradnorms (tst s')) = Some [] /\
       recorded_meandual s' = NaN /\
       bestdual (tst s') = bestdual (tst s) /\ bestparams (tst s') = bestparams (tst s) /\
       params s' = params s /\ smp s' = smp s /\ cch s' = no_cache).
Proof.
  split.
  - intros H. unfold test, test_measure. cbv [bind attr]. rewrite H. reflexivity.
  - intros ts Hts HF. unfold test, test_measure, test_record.
    cbv [bind attr]. rewrite Hts, HF. cbn [length seq test_loop].
    cbv [ret modify clearcache gets fst snd average float_lt].
    eexists. split; [reflexivity|]. unfold recorded_meandual. cbn.
    rewrite !Z.eqb_refl. auto 10.
Qed.

Lemma test_without_samples_witness :
  exists s',
    test (set_tst (mkTesting None (Some (mkTestsets [] [] None)) [] [] PosInf None 0) model3)
      = Returns tt s' /\
    recorded_meandual s' = NaN /\ bestparams (tst s') = None.
Proof.
  destruct (test_without_samples
              (set_tst (mkTesting None (Some (mkTestsets [] [] None)) [] [] PosInf None 0)
                       model3)) as [_ H].
  destruct (H (mkTestsets [] [] None) eq_refl eq_refl)
    as (s' & Ht & _ & _ & Hm & _ & Hb & _).
  exists s'. split; [exact Ht|]. split; [exact Hm | exact Hb].
Defined.

(** ** The sample during [test] *)

Lemma sample_untouched_refl s : sample_untouched s s.
Proof. unfold sample_untouched. auto. Qed.

Lemma sample_untouched_trans s1 s2 s3 :
  sample_untouched s1 s2 -> sample_untouched s2 s3 -> sample_untouched s1 s3.
Proof. unfold sample_untouched. intuition congruence. Qed.

Lemma cache_sample_untouched {A} (c : M A) :
  keeps cache_frame c -> keeps sample_untouched c.
Proof.
  intros H s s' Hrun. specialize (H s s' Hrun). unfold cache_frame in H.
  unfold sample_untouched. rewrite H. cbn. auto.
Qed.

Ltac smu_keeps :=
  repeat first
    [ keeps_step sample_untouched_refl sample_untouched_trans
    | assumption
    | match goal with H : _ |- keeps _ _ => apply H end
    | apply keeps_modify; intros ?; unfold sample_untouched; cbn; intuition congruence ].

Lemma dual_sample : keeps sample_untouched dual.
Proof.
  pose proof (cache_sample_untouched _ lognormconst_cache_keeps).
  unfold dual. smu_keeps.
Qed.

Lemma test_loop_sample es : forall ds gs, keeps sample_untouched (test_loop es ds gs).
Proof.
  pose proof dual_sample.
  induction es as [|e es IH]; intros ds gs; cbn [test_loop]; unfold clearcache; smu_keeps.
Qed.

Lemma test_sample : keeps sample_untouched test.
Proof.
  pose proof test_loop_sample.
  unfold test, test_measure, test_record, clearcache. smu_keeps.
Qed.

(** X23. [test] takes no sample from the generator and leaves the current
    sample alone, however it ends: the dual of each external sample is
    computed from the registered matrices, and the gradient, whose estimate
    could draw, is not computed, since [norm] is looked up first. *)
Theorem test_draw_count (s s' : BigModel) :
  final_state (test s) = Some s' ->
  samplegen s' = samplegen s /\ drawn s' = drawn s /\ smp s' = smp s.
Proof. intros H. exact (test_sample s s' H). Qed.

Lemma test_draw_count_witness :
  exists s',
    test (scripted_at (Some [2]) PosInf None [] []) = Raises (NameError "norm") s' /\
    drawn s' = 0%nat.
Proof.
  destruct scripted_stops as (s' & H). exists s'. split; [exact H|].
  destruct (test_draw_count (scripted_at (Some [2]) PosInf None [] []) s') as (_ & Hd & _).
  - rewrite H. reflexivity.
  - exact Hd.
Defined.

(** ** Registering external samples *)


